(** * jokebot.py: the writer and critic joke bot, as a state machine

    A shallow embedding of [src/website portf/jokebot.py].  The five node
    functions are translated one by one; console input, console output,
    the interpreter's random generator and the joke source are made
    explicit in a [World] that is threaded through every call.  The graph
    built by [build_joke_graph] is kept as data (named nodes, edges, one
    conditional edge) and executed by a small interpreter that follows the
    graph library's rules for this program: one active node at a time,
    the node's returned dict merged into the state, then the outgoing
    edge followed.

    Text is a [string] whose characters are the code points 0..255; the
    glyphs of the printed messages are outside that range and are kept as
    their UTF-8 bytes (no function of the program reads printed text
    back). *)

From Stdlib Require Import ZArith Ascii String.
From stdpp Require Import base option list strings gmap.

Local Open Scope string_scope.
Local Open Scope nat_scope.
Local Open Scope list_scope.

(** ** Python's [str] methods used by the program *)

Module Py.

(** The line feed of the "\n" escapes. *)
Definition nl : string := String (ascii_of_nat 10) "".

(** [str.isspace] on one character: the white space among the code
    points below 256 (TAB..CR, FS..US, SPACE, NEL, NBSP). *)
Definition isspace (c : ascii) : bool :=
  let n := nat_of_ascii c in
  (((9 <=? n) && (n <=? 13)) || ((28 <=? n) && (n <=? 32))
   || (n =? 133) || (n =? 160)).

Fixpoint lstrip (s : list ascii) : list ascii :=
  match s with
  | c :: s' => if isspace c then lstrip s' else s
  | [] => []
  end.

(** [str.strip()]: white space removed at both ends. *)
Definition strip (s : string) : string :=
  string_of_list_ascii
    (rev (lstrip (rev (lstrip (list_ascii_of_string s))))).

(** [str.lower()] on one character: A..Z and the Latin-1 capitals
    (all of 192..222 but the multiplication sign 215) move up by 32. *)
Definition lower_char (c : ascii) : ascii :=
  let n := nat_of_ascii c in
  if (((65 <=? n) && (n <=? 90))
      || ((192 <=? n) && (n <=? 222) && negb (n =? 215)))
  then ascii_of_nat (n + 32) else c.

Fixpoint lower (s : string) : string :=
  match s with
  | String c s' => String (lower_char c) (lower s')
  | EmptyString => EmptyString
  end.

(** [len(s)]. *)
Definition len (s : string) : nat := String.length s.

(** The value of a decimal digit character. *)
Definition digit_value (c : ascii) : option Z :=
  let n := nat_of_ascii c in
  if ((48 <=? n) && (n <=? 57)) then Some (Z.of_nat n - 48)%Z else None.

Definition underscore : ascii := "_"%char.

(** The digits of an [int] literal after its sign: decimal digits, with
    single underscores allowed between two digits.  [prev] tells whether
    the previous character was a digit; the result is the value and the
    number of digits read. *)
Fixpoint digits (s : list ascii) (prev : bool) (acc : Z) (count : nat)
  : option (Z * nat) :=
  match s with
  | [] => if prev then Some (acc, count) else None
  | c :: s' =>
      match digit_value c with
      | Some d => digits s' true (10 * acc + d)%Z (S count)
      | None =>
          if bool_decide (c = underscore) && prev
          then digits s' false acc count
          else None
      end
  end.

(** The interpreter's default limit on the digits of a decimal literal
    given to [int]; a longer one raises [ValueError]. *)
Definition max_str_digits : nat := 4300.

(** [int(s)] for a string [s] that was stripped already: [None] stands
    for [ValueError]. *)
Definition int (s : string) : option Z :=
  let body (neg : bool) (l : list ascii) :=
    match digits l false 0%Z 0 with
    | Some (v, count) =>
        if (max_str_digits <? count) then None
        else Some (if neg then (- v)%Z else v)
    | None => None
    end in
  match list_ascii_of_string s with
  | c :: l =>
      if bool_decide (c = "-"%char) then body true l
      else if bool_decide (c = "+"%char) then body false l
      else body false (c :: l)
  | [] => None
  end.

End Py.

(** ** Exceptions and results *)

Inductive exception : Type :=
  | EOFError              (* [input] at the end of the console input *)
  | IndexError            (* [random.choice] of an empty sequence *)
  | JokeSourceError       (* whatever [get_joke] raises *)
  | KeyError              (* a route that the conditional edge does not map *)
  | ValueError            (* a graph without a node it was asked to run *)
  | GraphRecursionError.  (* the recursion limit of [invoke] was reached *)

Inductive result (A : Type) : Type :=
  | Ok (a : A)
  | Raise (e : exception).

Arguments Ok {A} a.
Arguments Raise {A} e.

#[export] Instance result_ret : MRet result := fun A a => Ok a.
#[export] Instance result_bind : MBind result := fun A B f m =>
  match m with
  | Ok a => f a
  | Raise e => Raise e
  end.

(** ** The world outside the program *)

(** Console input still to be read (one entry per line, without its line
    end), what was written to the console so far (one entry per [print]
    or prompt), the random generator (the draws it will give, and how many
    were taken), and the joke source [pyjokes.get_joke], which answers from
    a language, a category and a draw of the generator, or raises. *)
Record World : Type := {
  stdin : list string;
  stdout : list string;
  random_draws : nat -> nat;
  random_pos : nat;
  get_joke : string -> string -> nat -> result string
}.

Definition set_console (w : World) (i o : list string) : World :=
  {| stdin := i; stdout := o; random_draws := random_draws w;
     random_pos := random_pos w; get_joke := get_joke w |}.

(** [print(text)]. *)
Definition print (text : string) (w : World) : World :=
  set_console w (stdin w) (stdout w ++ [text]).

(** [input(prompt)]: the prompt is written, then one line is read. *)
Definition input (prompt : string) (w : World) : result (string * World) :=
  match stdin w with
  | line :: rest => Ok (line, set_console w rest (stdout w ++ [prompt]))
  | [] => Raise EOFError
  end.

(** The next draw of the random generator. *)
Definition random_draw (w : World) : nat * World :=
  (random_draws w (random_pos w),
   {| stdin := stdin w; stdout := stdout w; random_draws := random_draws w;
      random_pos := S (random_pos w); get_joke := get_joke w |}).

(** [random.choice(seq)]. *)
Definition random_choice {A : Type} (seq : list A) (w : World)
  : result (A * World) :=
  let (d, w') := random_draw w in
  match seq !! (d mod length seq) with
  | Some x => Ok (x, w')
  | None => Raise IndexError
  end.

(** [get_joke(language=..., category=...)]. *)
Definition call_get_joke (language category : string) (w : World)
  : result (string * World) :=
  let (d, w') := random_draw w in
  joke_text ← get_joke w language category d;
  mret (joke_text, w').

(** ** Model: a joke *)

Module Joke.

Record t : Type := {
  text : string;
  category : string;
  approved : bool
}.

(** [Joke(text=..., category=...)]: [approved] defaults to [False]. *)
Definition new (text category : string) : t :=
  {| text := text; category := category; approved := false |}.

(** [joke.approved = b], the assignment of the critic. *)
Definition set_approved (j : t) (b : bool) : t :=
  {| text := text j; category := category j; approved := b |}.

End Joke.

(** ** State: what the bot remembers *)

Module JokeState.

Record t : Type := {
  jokes : list Joke.t;
  jokes_choice : string;
  category : string;
  language : string;
  quit : bool
}.

(** [JokeState()]. *)
Definition default : t :=
  {| jokes := []; jokes_choice := "n"; category := "neutral";
     language := "en"; quit := false |}.

End JokeState.

(** ** The dict a node returns *)

Module Update.

(** A key that is absent from the dict is [None]. *)
Record t : Type := {
  jokes : option (list Joke.t);
  jokes_choice : option string;
  category : option string;
  language : option string;
  quit : option bool
}.

(** [{}] *)
Definition empty : t :=
  {| jokes := None; jokes_choice := None; category := None;
     language := None; quit := None |}.

(** [{"jokes": js}] *)
Definition of_jokes (js : list Joke.t) : t :=
  {| jokes := Some js; jokes_choice := None; category := None;
     language := None; quit := None |}.

(** [{"jokes_choice": c}] *)
Definition of_jokes_choice (c : string) : t :=
  {| jokes := None; jokes_choice := Some c; category := None;
     language := None; quit := None |}.

(** [{"category": c}] *)
Definition of_category (c : string) : t :=
  {| jokes := None; jokes_choice := None; category := Some c;
     language := None; quit := None |}.

(** [{"quit": b}] *)
Definition of_quit (b : bool) : t :=
  {| jokes := None; jokes_choice := None; category := None;
     language := None; quit := Some b |}.

End Update.

(** How the graph library merges a returned dict into the state.  No
    field of [JokeState] is annotated with a reducer, so every field is a
    last-value channel: a key that is present overwrites the field, an
    absent key leaves it as it was. *)
Definition apply_update (s : JokeState.t) (u : Update.t) : JokeState.t :=
  {| JokeState.jokes := default (JokeState.jokes s) (Update.jokes u);
     JokeState.jokes_choice :=
       default (JokeState.jokes_choice s) (Update.jokes_choice u);
     JokeState.category :=
       default (JokeState.category s) (Update.category u);
     JokeState.language :=
       default (JokeState.language s) (Update.language u);
     JokeState.quit := default (JokeState.quit s) (Update.quit u) |}.

(** A node: a function of the state that returns a dict, run in a world. *)
Abbreviation Node := (JokeState.t -> World -> result (Update.t * World)).

(** ** Menu node *)

Definition menu_prompt : string :=
  Py.nl +:+ "[n] Next  [c] Category  [q] Quit" +:+ Py.nl +:+ "> ".

Definition show_menu : Node := fun state w =>
  '(line, w) ← input menu_prompt w;
  let user_input := Py.lower (Py.strip line) in
  if decide (user_input ∉ ["n"; "c"; "q"]) then
    let w := print "Invalid input. Defaulting to 'n'." w in
    let user_input := "n" in
    mret (Update.of_jokes_choice user_input, w)
  else
    mret (Update.of_jokes_choice user_input, w).

(** ** Writer node: generates joke *)

Definition writer_message (category : string) : string :=
  Py.nl +:+ "🖋️ Writer wrote a joke in category [" +:+ category +:+ "]...".

Definition writer_node : Node := fun state w =>
  let category := JokeState.category state in
  '(category, w) ←
    (if decide (category = "all")
     then random_choice ["neutral"; "chuck"] w
     else mret (category, w));
  '(joke_text, w) ← call_get_joke (JokeState.language state) category w;
  let new_joke := Joke.new joke_text category in
  let w := print (writer_message category) w in
  mret (Update.of_jokes [new_joke], w).

(** ** Critic node: evaluate joke *)

(** [state.jokes[-1]] is [last]; the assignment to [last_joke.approved]
    changes the record that the returned dict then carries, and the merge
    puts that dict's list in the place of the whole field, so the state
    after the step is the same whether or not the graph library shares
    the record with the list it keeps. *)
Definition critic_node : Node := fun state w =>
  match last (JokeState.jokes state) with
  | None => mret (Update.empty, w)
  | Some last_joke =>
      if (Py.len (Joke.text last_joke) <? 40) then
        let w := print "🧠 Critic: This joke is too short, rejecting it." w in
        let last_joke := Joke.set_approved last_joke false in
        mret (Update.of_jokes [last_joke], w)
      else
        let w := print "🧠 Critic: Approved this joke!" w in
        let last_joke := Joke.set_approved last_joke true in
        let w := print (Py.nl +:+ "🤣 " +:+ Joke.text last_joke) w in
        mret (Update.of_jokes [last_joke], w)
  end.

(** ** Category update *)

Definition categories : list string := ["neutral"; "chuck"; "all"].

Definition category_prompt : string :=
  "Select category [0=neutral,1=chuck,2=all]: ".

(** The [while True] loop of [update_category].  Every turn reads one
    line, so the loop is a recursion on the console input that is left;
    [out] is the console output so far.  It ends with the selection, the
    input that is left and the output, or with [EOFError] when the input
    ends before a valid line. *)
Fixpoint update_category_loop (lines out : list string)
  : result (Z * list string * list string) :=
  match lines with
  | [] => Raise EOFError
  | line :: lines =>
      let out := out ++ [category_prompt] in
      match Py.int (Py.strip line) with
      | Some selection =>
          if decide (0 ≤ selection < Z.of_nat (length categories))%Z
          then Ok (selection, lines, out)
          else update_category_loop lines (out ++ ["Invalid selection."])
      | None =>
          update_category_loop lines (out ++ ["Please enter a number."])
      end
  end.

(** What a turn of the loop writes after a line that it does not accept;
    [None] for a line that it accepts. *)
Definition selection_error (line : string) : option string :=
  match Py.int (Py.strip line) with
  | Some selection =>
      if decide (0 ≤ selection < Z.of_nat (length categories))%Z
      then None else Some "Invalid selection."
  | None => Some "Please enter a number."
  end.

(** What the loop writes for a run of lines that it does not accept: the
    prompt and the error, line after line. *)
Definition retries (bad : list string) : list string :=
  flat_map (fun line => [category_prompt; default "" (selection_error line)])
    bad.

Definition category_message (category : string) : string :=
  "✅ Category changed to " +:+ category.

Definition update_category : Node := fun state w =>
  '(selection, lines, out) ← update_category_loop (stdin w) (stdout w);
  let w := set_console w lines out in
  match categories !! Z.to_nat selection with
  | Some category =>
      let w := print (category_message category) w in
      mret (Update.of_category category, w)
  | None => Raise IndexError
  end.

(** ** Exit *)

Definition exit_message : string :=
  Py.nl +:+ "👋 Exiting bot. Thanks for laughing!".

Definition exit_bot : Node := fun state w =>
  let w := print exit_message w in
  mret (Update.of_quit true, w).

(** ** Router logic *)

Definition route_choice (state : JokeState.t) : string :=
  if decide (JokeState.jokes_choice state = "n") then "writer"
  else if decide (JokeState.jokes_choice state = "c") then "update_category"
  else if decide (JokeState.jokes_choice state = "q") then "exit_bot"
  else "exit_bot".

(** ** The graph *)

(** The name of the end of a run. *)
Definition END : string := "__end__".

(** What [StateGraph] collects: the nodes by name, the entry point, the
    plain edges, and the conditional edges (a router and the dict from its
    answers to node names).  Every node of this program has one way out,
    so one edge or one conditional edge per node is all that is kept. *)
Record StateGraph : Type := {
  nodes : gmap string Node;
  entry_point : option string;
  edges : gmap string string;
  branches : gmap string ((JokeState.t -> string) * gmap string string)
}.

Definition StateGraph_new : StateGraph :=
  {| nodes := ∅; entry_point := None; edges := ∅; branches := ∅ |}.

Definition add_node (name : string) (f : Node) (g : StateGraph) : StateGraph :=
  {| nodes := <[name := f]> (nodes g); entry_point := entry_point g;
     edges := edges g; branches := branches g |}.

Definition set_entry_point (name : string) (g : StateGraph) : StateGraph :=
  {| nodes := nodes g; entry_point := Some name;
     edges := edges g; branches := branches g |}.

Definition add_conditional_edges (source : string)
    (path : JokeState.t -> string) (path_map : gmap string string)
    (g : StateGraph) : StateGraph :=
  {| nodes := nodes g; entry_point := entry_point g; edges := edges g;
     branches := <[source := (path, path_map)]> (branches g) |}.

Definition add_edge (start_key end_key : string) (g : StateGraph)
  : StateGraph :=
  {| nodes := nodes g; entry_point := entry_point g;
     edges := <[start_key := end_key]> (edges g); branches := branches g |}.

Definition build_joke_graph : StateGraph :=
  let workflow := StateGraph_new in
  let workflow := add_node "show_menu" show_menu workflow in
  let workflow := add_node "writer" writer_node workflow in
  let workflow := add_node "critic" critic_node workflow in
  let workflow := add_node "update_category" update_category workflow in
  let workflow := add_node "exit_bot" exit_bot workflow in
  let workflow := set_entry_point "show_menu" workflow in
  let workflow :=
    add_conditional_edges "show_menu" route_choice
      (<["writer" := "writer"]>
         (<["update_category" := "update_category"]>
            (<["exit_bot" := "exit_bot"]> ∅)))
      workflow in
  let workflow := add_edge "writer" "critic" workflow in
  let workflow := add_edge "critic" "show_menu" workflow in
  let workflow := add_edge "update_category" "show_menu" workflow in
  let workflow := add_edge "exit_bot" END workflow in
  workflow.

(** ** Running the graph *)

(** A point of a run: the node that is to run next (or [END]), the state
    and the world. *)
Record Config : Type := {
  node : string;
  state : JokeState.t;
  world : World
}.

(** Where a run goes after node [n] has left the state [s]: through the
    conditional edge of [n] when it has one (the router reads the state
    after the merge), else along its plain edge; a node with no way out
    ends the run. *)
Definition successor (g : StateGraph) (n : string) (s : JokeState.t)
  : result string :=
  match branches g !! n with
  | Some (path, path_map) =>
      match path_map !! path s with
      | Some destination => Ok destination
      | None => Raise KeyError
      end
  | None => Ok (default END (edges g !! n))
  end.

(** One step: the node runs on the state, the dict it returns is merged,
    and the way out is taken. *)
Definition step (g : StateGraph) (c : Config) : result Config :=
  match nodes g !! node c with
  | None => Raise ValueError
  | Some f =>
      '(u, w) ← f (state c) (world c);
      let s := apply_update (state c) u in
      n ← successor g (node c) s;
      mret {| node := n; state := s; world := w |}
  end.

(** Steps until [END], at most [limit] of them; [trace] collects the names
    of the nodes that ran.  A run that needs more steps than the limit
    raises; the runs studied below stay far under the limit 100 of
    [main]. *)
Fixpoint run (g : StateGraph) (limit : nat) (c : Config) (trace : list string)
  : result (Config * list string) :=
  if decide (node c = END) then Ok (c, trace)
  else
    match limit with
    | 0 => Raise GraphRecursionError
    | S limit =>
        c' ← step g c;
        run g limit c' (trace ++ [node c])
    end.

(** Where a run stands after [k] steps, or at [END] when that comes
    first. *)
Fixpoint run_steps (g : StateGraph) (k : nat) (c : Config) : result Config :=
  match k with
  | 0 => Ok c
  | S k =>
      if decide (node c = END) then Ok c
      else c' ← step g c; run_steps g k c'
  end.

(** [graph.invoke(input, config={"recursion_limit": limit})], with the
    trace of the nodes that ran. *)
Definition invoke (g : StateGraph) (input : JokeState.t) (recursion_limit : nat)
    (w : World) : result (Config * list string) :=
  match entry_point g with
  | Some n => run g recursion_limit {| node := n; state := input; world := w |} []
  | None => Raise ValueError
  end.

(** The run of [main]: the graph is invoked on [JokeState()] with the
    recursion limit 100. *)
Definition main_invoke (w : World) : result (Config * list string) :=
  invoke build_joke_graph JokeState.default 100 w.

(** The states a run of [main] can pass through, in any world. *)
Inductive reachable : Config -> Prop :=
  | reachable_start (w : World) :
      reachable
        {| node := "show_menu"; state := JokeState.default; world := w |}
  | reachable_step (c c' : Config) :
      reachable c -> node c ≠ END -> step build_joke_graph c = Ok c' ->
      reachable c'.

(** ** Worlds for the scenarios *)

(** A joke of 50 characters. *)
Definition fifty : string :=
  "Why do programmers mix up Halloween and Christmas?".

(** A world with the given console input, nothing written yet, and a joke
    source that answers [joke] to every call. *)
Definition stub_world (lines : list string) (joke : string) : World :=
  {| stdin := lines; stdout := []; random_draws := fun _ => 0;
     random_pos := 0; get_joke := fun _ _ _ => Ok joke |}.

(** The default state but for the menu choice. *)
Definition state_with_choice (c : string) : JokeState.t :=
  {| JokeState.jokes := []; JokeState.jokes_choice := c;
     JokeState.category := "neutral"; JokeState.language := "en";
     JokeState.quit := false |}.

(** The state one round of menu, writer and critic leaves behind when the
    choice was "n" and the critic approved the joke. *)
Definition after_round (s : JokeState.t) (joke : string) : JokeState.t :=
  {| JokeState.jokes :=
       [{| Joke.text := joke; Joke.category := JokeState.category s;
           Joke.approved := true |}];
     JokeState.jokes_choice := "n";
     JokeState.category := JokeState.category s;
     JokeState.language := JokeState.language s;
     JokeState.quit := JokeState.quit s |}.

(** The run on the console input "n", "n", "q" with the joke [fifty], as
    it stands when the writer is about to run for the second time. *)
Definition before_second_writer : Config :=
  {| node := "writer";
     state := after_round JokeState.default fifty;
     world :=
       {| stdin := ["q"];
          stdout :=
            [menu_prompt; writer_message "neutral";
             "🧠 Critic: Approved this joke!"; Py.nl +:+ "🤣 " +:+ fifty;
             menu_prompt];
          random_draws := fun _ => 0; random_pos := 1;
          get_joke := fun _ _ _ => Ok fifty |} |}.

(** A longer session: a joke, the category set to "all", two more jokes,
    and the end. *)
Definition long_session : World :=
  stub_world ["n"; "c"; "2"; "n"; "n"; "q"] fifty.

Definition long_session_end : Config * list string :=
  Eval vm_compute in
    match main_invoke long_session with
    | Ok r => r
    | Raise _ =>
        ({| node := END; state := JokeState.default; world := long_session |},
         [])
    end.

(** ** Notions for the properties of whole runs *)

(** The names a run can stand at. *)
Definition node_names : list string :=
  ["show_menu"; "writer"; "critic"; "update_category"; "exit_bot"; END].

(** [w'] comes after [w]: console input was only read from the front,
    console output was only added at the end, the random generator only
    moved on, and the joke source is the same. *)
Definition extends (w w' : World) : Prop :=
  (∃ used, stdin w = used ++ stdin w')
  ∧ (∃ added, stdout w' = stdout w ++ added)
  ∧ random_draws w' = random_draws w
  ∧ random_pos w ≤ random_pos w'
  ∧ get_joke w' = get_joke w.

(** The verdict of the critic on a text. *)
Definition verdict (joke_text : string) : bool :=
  negb (Py.len joke_text <? 40).

(** The state one round of menu, writer and critic leaves behind when the
    choice was "n" and the session category is a concrete one. *)
Definition after_any_round (s : JokeState.t) (joke : string) : JokeState.t :=
  {| JokeState.jokes :=
       [{| Joke.text := joke; Joke.category := JokeState.category s;
           Joke.approved := verdict joke |}];
     JokeState.jokes_choice := "n";
     JokeState.category := JokeState.category s;
     JokeState.language := JokeState.language s;
     JokeState.quit := JokeState.quit s |}.

(** A string of white space only. *)
Definition blank (s : string) : Prop :=
  Forall (fun c => Py.isspace c = true) (list_ascii_of_string s).

(** A world whose joke source raises at every call. *)
Definition broken_source (lines : list string) (e : exception) : World :=
  {| stdin := lines; stdout := []; random_draws := fun _ => 0;
     random_pos := 0; get_joke := fun _ _ _ => Raise e |}.

(** * Properties *)

(** ** The Python methods on examples *)

Example len_fifty : Py.len fifty = 50.
Proof. reflexivity. Qed.

Example strip_lower_N : Py.lower (Py.strip "  N ") = "n".
Proof. reflexivity. Qed.

Example int_examples :
  Py.int "1" = Some 1%Z ∧ Py.int "+1" = Some 1%Z ∧ Py.int "-2" = Some (-2)%Z
  ∧ Py.int "007" = Some 7%Z ∧ Py.int "1_0" = Some 10%Z
  ∧ Py.int "1__0" = None ∧ Py.int "_1" = None ∧ Py.int "1_" = None
  ∧ Py.int "" = None ∧ Py.int "-" = None ∧ Py.int "x" = None
  ∧ Py.int "1.0" = None.
Proof. repeat split; reflexivity. Qed.

(** ** What each node returns *)

Lemma bind_Ok {A B : Type} (m : result A) (f : A -> result B) (b : B) :
  m ≫= f = Ok b -> ∃ a, m = Ok a ∧ f a = Ok b.
Proof. destruct m as [a|e]; [by exists a | discriminate]. Qed.

Lemma show_menu_Ok (s : JokeState.t) (w : World) (line : string)
    (rest : list string) :
  stdin w = line :: rest ->
  ∃ w', stdin w' = rest ∧
    show_menu s w =
      Ok (Update.of_jokes_choice
            (if decide (Py.lower (Py.strip line) ∈ ["n"; "c"; "q"])
             then Py.lower (Py.strip line) else "n"), w').
Proof.
  intros Hin. unfold show_menu, input. rewrite Hin. cbn.
  destruct (decide (Py.lower (Py.strip line) ∈ ["n"; "c"; "q"])) as [Hm|Hm].
  - rewrite decide_False by (intros Hn; by apply Hn).
    eexists. split; [|reflexivity]. reflexivity.
  - rewrite decide_True by done.
    eexists. split; [|reflexivity]. reflexivity.
Qed.

Lemma show_menu_inv (s : JokeState.t) (w w' : World) (u : Update.t) :
  show_menu s w = Ok (u, w') ->
  ∃ c, u = Update.of_jokes_choice c ∧ c ∈ ["n"; "c"; "q"].
Proof.
  unfold show_menu, input. destruct (stdin w) as [|line rest]; [discriminate|].
  cbn. case_decide as Hm; intros [= <- <-].
  - exists "n". split; [done|]. set_solver.
  - exists (Py.lower (Py.strip line)). split; [done|].
    by destruct (decide (Py.lower (Py.strip line) ∈ ["n"; "c"; "q"])).
Qed.

Lemma random_choice_inv {A : Type} (seq : list A) (w w' : World) (x : A) :
  random_choice seq w = Ok (x, w') -> x ∈ seq.
Proof.
  unfold random_choice. cbn.
  destruct (seq !! _) as [y|] eqn:Hy; [|discriminate].
  intros [= <- <-]. by eapply list_elem_of_lookup_2.
Qed.

Lemma writer_node_inv (s : JokeState.t) (w w' : World) (u : Update.t) :
  writer_node s w = Ok (u, w') ->
  ∃ joke_text category,
    u = Update.of_jokes [Joke.new joke_text category]
    ∧ (if decide (JokeState.category s = "all")
       then category ∈ ["neutral"; "chuck"]
       else category = JokeState.category s).
Proof.
  unfold writer_node. intros H.
  apply bind_Ok in H as ([category w1] & Hc & H).
  apply bind_Ok in H as ([joke_text w2] & Hj & H).
  injection H as <- <-. exists joke_text, category. split; [done|].
  case_decide.
  - by eapply random_choice_inv.
  - by injection Hc as <- <-.
Qed.

Lemma critic_node_empty (s : JokeState.t) (w : World) :
  JokeState.jokes s = [] -> critic_node s w = Ok (Update.empty, w).
Proof. unfold critic_node. by intros ->. Qed.

Lemma critic_node_last (s : JokeState.t) (w : World) (j : Joke.t) :
  last (JokeState.jokes s) = Some j ->
  critic_node s w =
    Ok (Update.of_jokes
          [Joke.set_approved j (negb (Py.len (Joke.text j) <? 40))],
        if Py.len (Joke.text j) <? 40
        then print "🧠 Critic: This joke is too short, rejecting it." w
        else print (Py.nl +:+ "🤣 " +:+ Joke.text j)
               (print "🧠 Critic: Approved this joke!" w)).
Proof.
  unfold critic_node. intros ->.
  by destruct (Py.len (Joke.text j) <? 40).
Qed.

Lemma update_category_loop_inv (lines out lines' out' : list string) (k : Z) :
  update_category_loop lines out = Ok (k, lines', out') ->
  (0 ≤ k < Z.of_nat (length categories))%Z.
Proof.
  revert out. induction lines as [|line lines IH]; intros out; cbn;
    [discriminate|].
  destruct (Py.int (Py.strip line)) as [sel|]; [|by apply IH].
  case_decide; [|by apply IH]. by intros [= <- _ _].
Qed.

Lemma update_category_inv (s : JokeState.t) (w w' : World) (u : Update.t) :
  update_category s w = Ok (u, w') ->
  ∃ c, u = Update.of_category c ∧ c ∈ categories.
Proof.
  unfold update_category. intros H.
  apply bind_Ok in H as ([[k lines] out] & _ & H).
  destruct (categories !! Z.to_nat k) as [c|] eqn:Hc; [|discriminate].
  injection H as <- <-. exists c. split; [done|].
  by eapply list_elem_of_lookup_2.
Qed.

(** ** The graph, node by node *)

Lemma nodes_build_joke_graph (n : string) (f : Node) :
  nodes build_joke_graph !! n = Some f ->
  (n = "show_menu" ∧ f = show_menu) ∨ (n = "writer" ∧ f = writer_node)
  ∨ (n = "critic" ∧ f = critic_node)
  ∨ (n = "update_category" ∧ f = update_category)
  ∨ (n = "exit_bot" ∧ f = exit_bot).
Proof.
  unfold build_joke_graph. cbn [nodes add_node add_edge set_entry_point
    add_conditional_edges StateGraph_new].
  rewrite !lookup_insert_Some, lookup_empty.
  intros H.
  repeat (destruct H as [[<- <-]|[_ H]]; [auto 10|]). discriminate.
Qed.

Lemma successor_show_menu (s : JokeState.t) :
  successor build_joke_graph "show_menu" s = Ok (route_choice s).
Proof.
  unfold successor.
  replace (branches build_joke_graph !! "show_menu")
    with (Some (route_choice,
                (<["writer" := "writer"]>
                   (<["update_category" := "update_category"]>
                      (<["exit_bot" := "exit_bot"]> (∅ : gmap string string))))))
    by reflexivity.
  unfold route_choice. repeat case_decide; reflexivity.
Qed.

Lemma step_Ok (g : StateGraph) (n n' : string) (f : Node) (s : JokeState.t)
    (w w' : World) (u : Update.t) :
  nodes g !! n = Some f -> f s w = Ok (u, w') ->
  successor g n (apply_update s u) = Ok n' ->
  step g {| node := n; state := s; world := w |}
  = Ok {| node := n'; state := apply_update s u; world := w' |}.
Proof.
  intros Hn Hf Hs. unfold step. cbn [node state world].
  rewrite Hn, Hf. cbn. by rewrite Hs.
Qed.

Lemma run_step (g : StateGraph) (limit : nat) (c c' : Config)
    (trace : list string) :
  node c ≠ END -> step g c = Ok c' ->
  run g (S limit) c trace = run g limit c' (trace ++ [node c]).
Proof. intros Hn Hs. cbn. rewrite decide_False by done. by rewrite Hs. Qed.

Lemma run_END (g : StateGraph) (limit : nat) (c : Config)
    (trace : list string) :
  node c = END -> run g limit c trace = Ok (c, trace).
Proof. intros Hn. destruct limit; cbn; by rewrite decide_True. Qed.

(** ** The critic *)

(** C3: on a history that ends with the record [j], the critic step
    returns, and the last record of the state after it is [j] with its
    approved flag set to true if and only if the text of [j] has at
    least 40 characters; 39 characters give false and 40 give true. *)
Theorem C3_critic_threshold (s : JokeState.t) (w : World)
    (js : list Joke.t) (j : Joke.t) :
  JokeState.jokes s = (js ++ [j]) ->
  ∃ u w' j',
    critic_node s w = Ok (u, w')
    ∧ last (JokeState.jokes (apply_update s u)) = Some j'
    ∧ Joke.text j' = Joke.text j
    ∧ Joke.category j' = Joke.category j
    ∧ (Joke.approved j' = true ↔ 40 ≤ Py.len (Joke.text j))
    ∧ (Py.len (Joke.text j) = 39 -> Joke.approved j' = false)
    ∧ (Py.len (Joke.text j) = 40 -> Joke.approved j' = true).
Proof.
  intros Hjs.
  assert (Hlast : last (JokeState.jokes s) = Some j)
    by (rewrite Hjs; apply last_snoc).
  eexists _, _, (Joke.set_approved j (negb (Py.len (Joke.text j) <? 40))).
  split; [exact (critic_node_last s w j Hlast)|].
  split; [reflexivity|]. split; [reflexivity|]. split; [reflexivity|].
  cbn [Joke.set_approved Joke.approved].
  rewrite negb_true_iff, negb_false_iff, Nat.ltb_ge, Nat.ltb_lt.
  split; [reflexivity|]. split; intros ->; lia.
Qed.

Lemma C3_witness :
  ∃ u w' j',
    critic_node
      {| JokeState.jokes := [Joke.new "short" "neutral"; Joke.new fifty "chuck"];
         JokeState.jokes_choice := "n"; JokeState.category := "chuck";
         JokeState.language := "en"; JokeState.quit := false |}
      (stub_world [] fifty) = Ok (u, w')
    ∧ Joke.approved j' = true.
Proof.
  destruct (C3_critic_threshold
    {| JokeState.jokes := [Joke.new "short" "neutral"; Joke.new fifty "chuck"];
       JokeState.jokes_choice := "n"; JokeState.category := "chuck";
       JokeState.language := "en"; JokeState.quit := false |}
    (stub_world [] fifty) [Joke.new "short" "neutral"] (Joke.new fifty "chuck")
    eq_refl) as (u & w' & j' & Hc & _ & _ & _ & Hiff & _).
  exists u, w', j'. split; [exact Hc|].
  apply Hiff. vm_compute. lia.
Defined.

(** C9: on an empty history the critic step returns the empty dict,
    raises nothing, writes nothing, and the state after the merge is the
    state before it. *)
Theorem C9_critic_empty_history (s : JokeState.t) (w : World) :
  JokeState.jokes s = [] ->
  critic_node s w = Ok (Update.empty, w)
  ∧ apply_update s Update.empty = s
  ∧ step build_joke_graph {| node := "critic"; state := s; world := w |}
    = Ok {| node := "show_menu"; state := s; world := w |}.
Proof.
  intros He.
  assert (Hid : apply_update s Update.empty = s) by (by destruct s).
  split; [by apply critic_node_empty|]. split; [exact Hid|].
  rewrite <- Hid at 2.
  apply step_Ok with (f := critic_node); [reflexivity| |reflexivity].
  by apply critic_node_empty.
Qed.

Lemma C9_witness :
  critic_node JokeState.default (stub_world ["q"] fifty)
  = Ok (Update.empty, stub_world ["q"] fifty).
Proof.
  exact (proj1 (C9_critic_empty_history JokeState.default
                  (stub_world ["q"] fifty) eq_refl)).
Defined.

(** ** The writer *)

(** C4: with the session category "all", the record that the writer step
    creates carries "neutral" or "chuck", never "all"; and the step does
    return when the joke source answers for these two categories. *)
Theorem C4_all_is_resolved (s : JokeState.t) (w : World) :
  JokeState.category s = "all" ->
  (∀ u w', writer_node s w = Ok (u, w') ->
     ∃ j, Update.jokes u = Some [j]
       ∧ JokeState.jokes (apply_update s u) = [j]
       ∧ Joke.category j ∈ ["neutral"; "chuck"]
       ∧ Joke.category j ≠ "all")
  ∧ ((∀ category d, category ∈ ["neutral"; "chuck"] ->
        ∃ joke_text,
          get_joke w (JokeState.language s) category d = Ok joke_text) ->
     ∃ u w', writer_node s w = Ok (u, w')).
Proof.
  intros Hall. split.
  - intros u w' H.
    apply writer_node_inv in H as (joke_text & category & -> & Hc).
    rewrite decide_True in Hc by done.
    exists (Joke.new joke_text category). cbn.
    repeat split; [done|]. intros ->. revert Hc.
    by apply (bool_decide_unpack _).
  - intros Hsrc. unfold writer_node. rewrite decide_True by done.
    unfold random_choice. cbn [random_draw].
    destruct (["neutral"; "chuck"] !! _) as [category|] eqn:Hc.
    + cbn. unfold call_get_joke. cbn [random_draw].
      apply list_elem_of_lookup_2 in Hc.
      destruct (Hsrc category (random_draws w (S (random_pos w))) Hc)
        as [joke_text Hj].
      cbn [get_joke]. rewrite Hj. cbn. by eexists _, _.
    + apply lookup_ge_None in Hc. cbn [length] in Hc.
      pose proof (Nat.mod_upper_bound (random_draws w (random_pos w)) 2).
      lia.
Qed.

Lemma C4_witness :
  ∃ j,
    JokeState.jokes
      (apply_update
         {| JokeState.jokes := []; JokeState.jokes_choice := "n";
            JokeState.category := "all"; JokeState.language := "en";
            JokeState.quit := false |}
         (Update.of_jokes [Joke.new fifty "chuck"])) = [j]
    ∧ Joke.category j ∈ ["neutral"; "chuck"].
Proof.
  destruct (proj1 (C4_all_is_resolved
    {| JokeState.jokes := []; JokeState.jokes_choice := "n";
       JokeState.category := "all"; JokeState.language := "en";
       JokeState.quit := false |}
    {| stdin := []; stdout := []; random_draws := fun _ => 1;
       random_pos := 0; get_joke := fun _ _ _ => Ok fifty |} eq_refl)
    _ _ eq_refl) as (j & _ & Hj & Hc & _).
  exists j. split; [exact Hj | exact Hc].
Defined.

(** ** The router *)

(** C5: the router answers for every state: "n" goes to the writer, "c"
    to the category update, "q" to the exit, and every other value of
    [jokes_choice] to the exit as well; the conditional edge of the menu
    sends each answer to the node of that name. *)
Theorem C5_route_choice_total (s : JokeState.t) :
  (JokeState.jokes_choice s = "n" -> route_choice s = "writer")
  ∧ (JokeState.jokes_choice s = "c" -> route_choice s = "update_category")
  ∧ (JokeState.jokes_choice s = "q" -> route_choice s = "exit_bot")
  ∧ (JokeState.jokes_choice s ∉ ["n"; "c"; "q"] -> route_choice s = "exit_bot")
  ∧ successor build_joke_graph "show_menu" s = Ok (route_choice s)
  ∧ nodes build_joke_graph !! "writer" = Some writer_node
  ∧ nodes build_joke_graph !! "update_category" = Some update_category
  ∧ nodes build_joke_graph !! "exit_bot" = Some exit_bot.
Proof.
  unfold route_choice.
  repeat split; try reflexivity; try apply successor_show_menu.
  - by intros ->.
  - by intros ->.
  - by intros ->.
  - intros Hn. repeat case_decide; try done; exfalso; apply Hn; set_solver.
Qed.

Lemma C5_witness :
  route_choice (state_with_choice "n") = "writer"
  ∧ route_choice (state_with_choice "c") = "update_category"
  ∧ route_choice (state_with_choice "q") = "exit_bot"
  ∧ route_choice (state_with_choice "x") = "exit_bot".
Proof.
  split; [|split; [|split]].
  - exact (proj1 (C5_route_choice_total (state_with_choice "n")) eq_refl).
  - exact (proj1 (proj2 (C5_route_choice_total (state_with_choice "c")))
             eq_refl).
  - exact (proj1 (proj2 (proj2 (C5_route_choice_total (state_with_choice "q"))))
             eq_refl).
  - apply (proj1 (proj2 (proj2 (proj2
             (C5_route_choice_total (state_with_choice "x")))))).
    by apply (bool_decide_unpack _).
Defined.

(** ** The menu *)

(** C6: the menu step reads one line and returns; when the stripped,
    lower-cased line is none of "n", "c", "q" the choice it leaves in the
    state is "n", and when it is one of them the choice is that form. *)
Theorem C6_menu_coercion (s : JokeState.t) (w : World) (line : string)
    (rest : list string) :
  stdin w = line :: rest ->
  ∃ u w',
    show_menu s w = Ok (u, w') ∧ stdin w' = rest
    ∧ (Py.lower (Py.strip line) ∉ ["n"; "c"; "q"] ->
       JokeState.jokes_choice (apply_update s u) = "n")
    ∧ (Py.lower (Py.strip line) ∈ ["n"; "c"; "q"] ->
       JokeState.jokes_choice (apply_update s u) = Py.lower (Py.strip line)).
Proof.
  intros Hin. destruct (show_menu_Ok s w line rest Hin) as (w' & Hrest & Hm).
  eexists _, w'. split; [exact Hm|]. split; [exact Hrest|]. cbn.
  split; intros H.
  - by rewrite decide_False.
  - by rewrite decide_True.
Qed.

Lemma C6_witness :
  (∃ u w', show_menu JokeState.default (stub_world ["joke!"; "q"] fifty)
           = Ok (u, w')
     ∧ JokeState.jokes_choice (apply_update JokeState.default u) = "n")
  ∧ (∃ u w', show_menu JokeState.default (stub_world [" Q "] fifty)
             = Ok (u, w')
       ∧ JokeState.jokes_choice (apply_update JokeState.default u) = "q").
Proof.
  split.
  - destruct (C6_menu_coercion JokeState.default
                (stub_world ["joke!"; "q"] fifty) "joke!" ["q"] eq_refl)
      as (u & w' & Hm & _ & Hn & _).
    exists u, w'. split; [exact Hm|].
    apply Hn. by apply (bool_decide_unpack _).
  - destruct (C6_menu_coercion JokeState.default
                (stub_world [" Q "] fifty) " Q " [] eq_refl)
      as (u & w' & Hm & _ & _ & Hy).
    exists u, w'. split; [exact Hm|].
    apply Hy. by apply (bool_decide_unpack _).
Defined.

(** ** The category update *)

Lemma selection_error_None (line : string) :
  selection_error line = None ↔
  ∃ k, Py.int (Py.strip line) = Some k ∧ (0 ≤ k ≤ 2)%Z.
Proof.
  unfold selection_error. cbn [categories length].
  destruct (Py.int (Py.strip line)) as [k|].
  - case_decide; split; try done.
    + intros _. exists k. split; [done | lia].
    + intros (k' & [= <-] & Hk). lia.
  - split; [done|]. by intros (k & ? & _).
Qed.

Lemma update_category_loop_retries (bad : list string) (line : string)
    (rest out : list string) (k : Z) :
  Forall (fun l => is_Some (selection_error l)) bad ->
  Py.int (Py.strip line) = Some k -> (0 ≤ k ≤ 2)%Z ->
  update_category_loop (bad ++ line :: rest) out
  = Ok (k, rest, out ++ retries bad ++ [category_prompt]).
Proof.
  intros Hbad Hline Hk. revert out.
  induction Hbad as [|l bad [e He] _ IH]; intros out.
  - cbn. rewrite Hline. rewrite decide_True by (cbn; lia). reflexivity.
  - cbn [app update_category_loop retries flat_map]. fold (retries bad).
    rewrite He. unfold selection_error in He.
    destruct (Py.int (Py.strip l)) as [sel|].
    + case_decide; [discriminate|]. injection He as <-.
      rewrite IH. cbn. by rewrite <- !app_assoc.
    + injection He as <-. rewrite IH. cbn. by rewrite <- !app_assoc.
Qed.

(** C7: the category update turns down every line that is not an integer
    0, 1 or 2 after stripping: it writes an error for it and asks again,
    and returns nothing before a line is accepted; the first accepted
    line [k] ends the step, which sets [category] to the [k]-th of
    "neutral", "chuck", "all" and changes no other field.  For the input
    "x", "5", "1" the first two lines are answered with an error and the
    category becomes "chuck". *)
Theorem C7_update_category_retry :
  (∀ (s : JokeState.t) (w : World) (bad : list string) (line : string)
     (rest : list string) (k : nat),
     stdin w = bad ++ line :: rest ->
     Forall (fun l => ¬ ∃ i, Py.int (Py.strip l) = Some i ∧ (0 ≤ i ≤ 2)%Z)
       bad ->
     Py.int (Py.strip line) = Some (Z.of_nat k) -> k ≤ 2 ->
     ∃ c w',
       categories !! k = Some c
       ∧ update_category s w = Ok (Update.of_category c, w')
       ∧ apply_update s (Update.of_category c)
         = {| JokeState.jokes := JokeState.jokes s;
              JokeState.jokes_choice := JokeState.jokes_choice s;
              JokeState.category := c;
              JokeState.language := JokeState.language s;
              JokeState.quit := JokeState.quit s |}
       ∧ stdin w' = rest
       ∧ stdout w'
         = stdout w ++ retries bad ++ [category_prompt; category_message c]
       ∧ Forall (fun l => selection_error l = Some "Invalid selection."
                          ∨ selection_error l = Some "Please enter a number.")
           bad)
  ∧ (∀ (s : JokeState.t) (w : World),
       stdin w = ["x"; "5"; "1"] ->
       ∃ u w',
         update_category s w = Ok (u, w')
         ∧ JokeState.category (apply_update s u) = "chuck"
         ∧ stdin w' = []
         ∧ stdout w'
           = stdout w
             ++ [category_prompt; "Please enter a number.";
                 category_prompt; "Invalid selection.";
                 category_prompt; category_message "chuck"]).
Proof.
  assert (Hgen : ∀ (s : JokeState.t) (w : World) (bad : list string)
     (line : string) (rest : list string) (k : nat),
     stdin w = bad ++ line :: rest ->
     Forall (fun l => is_Some (selection_error l)) bad ->
     Py.int (Py.strip line) = Some (Z.of_nat k) -> k ≤ 2 ->
     ∃ c w',
       categories !! k = Some c
       ∧ update_category s w = Ok (Update.of_category c, w')
       ∧ stdin w' = rest
       ∧ stdout w'
         = stdout w ++ retries bad ++ [category_prompt; category_message c]).
  { intros s w bad line rest k Hin Hbad Hline Hk.
    assert (Hc : is_Some (categories !! k))
      by (apply lookup_lt_is_Some; cbn; lia).
    destruct Hc as [c Hc]. exists c. eexists. split; [exact Hc|].
    unfold update_category. rewrite Hin.
    rewrite (update_category_loop_retries bad line rest (stdout w)
               (Z.of_nat k)) by (done || lia).
    cbn [mbind result_bind]. rewrite Nat2Z.id, Hc.
    split; [reflexivity|]. split; [reflexivity|].
    cbn. by rewrite <- !app_assoc. }
  split.
  - intros s w bad line rest k Hin Hbad Hline Hk.
    assert (Hbad' : Forall (fun l => is_Some (selection_error l)) bad).
    { eapply Forall_impl; [exact Hbad|]. intros l Hl. cbn in Hl.
      destruct (selection_error l) as [e|] eqn:He; [by eexists|].
      exfalso. apply Hl. by apply selection_error_None. }
    destruct (Hgen s w bad line rest k Hin Hbad' Hline Hk)
      as (c & w' & Hc & Hu & Hrest & Hout).
    exists c, w'. repeat split; try done.
    eapply Forall_impl; [exact Hbad'|]. intros l [e He]. cbn.
    unfold selection_error in *.
    destruct (Py.int (Py.strip l)); [|by right].
    case_decide; [discriminate | by left].
  - intros s w Hin.
    destruct (Hgen s w ["x"; "5"] "1" [] 1 Hin) as (c & w' & Hc & Hu & Hrest & Hout).
    + repeat constructor; by eexists.
    + reflexivity.
    + lia.
    + injection Hc as <-. exists (Update.of_category "chuck"), w'.
      repeat split; done.
Qed.

Lemma C7_witness :
  ∃ c w',
    update_category JokeState.default (stub_world ["two"; "-1"; "3"; " 2 "; "n"] fifty)
    = Ok (Update.of_category c, w')
    ∧ c = "all" ∧ stdin w' = ["n"].
Proof.
  destruct (proj1 C7_update_category_retry JokeState.default
              (stub_world ["two"; "-1"; "3"; " 2 "; "n"] fifty)
              ["two"; "-1"; "3"] " 2 " ["n"] 2 eq_refl)
    as (c & w' & Hc & Hu & _ & Hrest & _).
  - repeat constructor; intros (i & Hi & Hr); vm_compute in Hi;
      (discriminate Hi || (injection Hi as <-; lia)).
  - reflexivity.
  - lia.
  - exists c, w'. split; [exact Hu|]. split; [|exact Hrest].
    by injection Hc as <-.
Defined.

(** ** Runs of the graph *)

Lemma step_show_menu (s : JokeState.t) (w w' : World) (u : Update.t)
    (n : string) :
  show_menu s w = Ok (u, w') -> route_choice (apply_update s u) = n ->
  step build_joke_graph {| node := "show_menu"; state := s; world := w |}
  = Ok {| node := n; state := apply_update s u; world := w' |}.
Proof.
  intros Hm <-. apply step_Ok with (f := show_menu); [reflexivity|done|].
  apply successor_show_menu.
Qed.

Lemma step_writer (s : JokeState.t) (w w' : World) (u : Update.t) :
  writer_node s w = Ok (u, w') ->
  step build_joke_graph {| node := "writer"; state := s; world := w |}
  = Ok {| node := "critic"; state := apply_update s u; world := w' |}.
Proof.
  intros Hf. by apply step_Ok with (f := writer_node).
Qed.

Lemma step_critic (s : JokeState.t) (w w' : World) (u : Update.t) :
  critic_node s w = Ok (u, w') ->
  step build_joke_graph {| node := "critic"; state := s; world := w |}
  = Ok {| node := "show_menu"; state := apply_update s u; world := w' |}.
Proof.
  intros Hf. by apply step_Ok with (f := critic_node).
Qed.

Lemma step_exit_bot (s : JokeState.t) (w : World) :
  step build_joke_graph {| node := "exit_bot"; state := s; world := w |}
  = Ok {| node := END; state := apply_update s (Update.of_quit true);
          world := print exit_message w |}.
Proof. by apply step_Ok with (f := exit_bot). Qed.

Lemma step_inv (c c' : Config) :
  step build_joke_graph c = Ok c' ->
  ∃ (f : Node) (u : Update.t),
    nodes build_joke_graph !! node c = Some f
    ∧ f (state c) (world c) = Ok (u, world c')
    ∧ state c' = apply_update (state c) u.
Proof.
  unfold step.
  destruct (nodes build_joke_graph !! node c) as [f|] eqn:Hn; [|done].
  intros H. apply bind_Ok in H as ([u w'] & Hf & H).
  apply bind_Ok in H as (n & _ & H). injection H as <-.
  by exists f, u.
Qed.

Lemma reachable_run_steps (k : nat) (c c' : Config) :
  reachable c -> run_steps build_joke_graph k c = Ok c' -> reachable c'.
Proof.
  revert c. induction k as [|k IH]; intros c Hc; cbn.
  - by intros [= <-].
  - case_decide as Hn; [by intros [= <-]|].
    intros H. apply bind_Ok in H as (c1 & Hs & H).
    apply (IH c1); [|done]. by apply reachable_step with c.
Qed.

Lemma reachable_run (limit : nat) (c c' : Config) (t t' : list string) :
  reachable c -> run build_joke_graph limit c t = Ok (c', t') ->
  reachable c'.
Proof.
  revert c t. induction limit as [|limit IH]; intros c t Hc; cbn.
  - case_decide; [by intros [= <- _] | discriminate].
  - case_decide as Hn; [by intros [= <- _]|].
    intros H. apply bind_Ok in H as (c1 & Hs & H).
    apply (IH c1 (t ++ [node c])); [|done]. by apply reachable_step with c.
Qed.

(** C8: when the first line read by the menu is a "q" (after stripping
    and lower-casing), the run of [main] ends after the menu step and the
    exit step and no other, with [quit] true and no joke in the history. *)
Theorem C8_quit_at_first_menu (w : World) (line : string)
    (rest : list string) :
  stdin w = line :: rest -> Py.lower (Py.strip line) = "q" ->
  ∃ c,
    main_invoke w = Ok (c, ["show_menu"; "exit_bot"])
    ∧ node c = END
    ∧ JokeState.quit (state c) = true
    ∧ JokeState.jokes (state c) = []
    ∧ stdin (world c) = rest.
Proof.
  intros Hin Hq.
  destruct (show_menu_Ok JokeState.default w line rest Hin)
    as (w1 & Hrest & Hm).
  rewrite Hq in Hm. rewrite decide_True in Hm by (by apply (bool_decide_unpack _)).
  eexists. split.
  - unfold main_invoke, invoke.
    change (entry_point build_joke_graph) with (Some "show_menu").
    cbv beta iota.
    erewrite run_step;
      [|discriminate | by apply step_show_menu with (u := Update.of_jokes_choice "q") (w' := w1)].
    erewrite run_step; [|discriminate | apply step_exit_bot].
    by apply run_END.
  - by repeat split.
Qed.

Lemma C8_witness :
  ∃ c,
    main_invoke (stub_world [" Q"; "n"] fifty)
    = Ok (c, ["show_menu"; "exit_bot"])
    ∧ JokeState.quit (state c) = true
    ∧ JokeState.jokes (state c) = [].
Proof.
  destruct (C8_quit_at_first_menu (stub_world [" Q"; "n"] fifty) " Q" ["n"]
              eq_refl eq_refl) as (c & Hr & _ & Hq & Hj & _).
  exists c. split; [exact Hr|]. split; [exact Hq | exact Hj].
Defined.

Lemma critic_node_inv (s : JokeState.t) (w w' : World) (u : Update.t) :
  critic_node s w = Ok (u, w') ->
  (JokeState.jokes s = [] ∧ u = Update.empty ∧ w' = w)
  ∨ (∃ j, last (JokeState.jokes s) = Some j
       ∧ u = Update.of_jokes
               [Joke.set_approved j (negb (Py.len (Joke.text j) <? 40))]).
Proof.
  destruct (last (JokeState.jokes s)) as [j|] eqn:Hl.
  - rewrite (critic_node_last s w j Hl). intros [= <- _]. right. by exists j.
  - apply last_None in Hl. rewrite (critic_node_empty s w Hl).
    intros [= <- <-]. by left.
Qed.

Lemma jokes_after_node (n : string) (f : Node) (s : JokeState.t)
    (w w' : World) (u : Update.t) :
  nodes build_joke_graph !! n = Some f -> f s w = Ok (u, w') ->
  length (JokeState.jokes s) ≤ 1 ->
  length (JokeState.jokes (apply_update s u)) ≤ 1.
Proof.
  intros Hn Hf Hlen.
  destruct (nodes_build_joke_graph n f Hn)
    as [[_ ->]|[[_ ->]|[[_ ->]|[[_ ->]|[_ ->]]]]].
  - by apply show_menu_inv in Hf as (c & -> & _).
  - by apply writer_node_inv in Hf as (t & c & -> & _).
  - apply critic_node_inv in Hf as [(_ & -> & _)|(j & _ & ->)]; [done|].
    cbn. lia.
  - by apply update_category_inv in Hf as (c & -> & _).
  - by injection Hf as <- _.
Qed.

Lemma reachable_jokes (c : Config) :
  reachable c -> length (JokeState.jokes (state c)) ≤ 1.
Proof.
  induction 1 as [w|c c' _ IH _ Hs]; [cbn; lia|].
  apply step_inv in Hs as (f & u & Hn & Hf & ->).
  by eapply jokes_after_node.
Qed.

(** C10: no state that a run of [main] passes through, and so no final
    state, holds more than one joke.  The merge overwrites [jokes] with
    the list of the returned dict; the writer returns the one-element list
    of the joke it made, the critic the one-element list of the last joke
    with its verdict (or no [jokes] key on an empty history), and the
    menu, the category update and the exit return no [jokes] key. *)
Theorem C10_history_at_most_one :
  (∀ c, reachable c -> length (JokeState.jokes (state c)) ≤ 1)
  ∧ (∀ w c t, main_invoke w = Ok (c, t) ->
       length (JokeState.jokes (state c)) ≤ 1)
  ∧ (∀ s js, JokeState.jokes (apply_update s (Update.of_jokes js)) = js)
  ∧ (∀ s w u w', writer_node s w = Ok (u, w') ->
       ∃ joke_text category,
         Update.jokes u = Some [Joke.new joke_text category])
  ∧ (∀ s w u w', critic_node s w = Ok (u, w') ->
       (JokeState.jokes s = [] ∧ Update.jokes u = None)
       ∨ (∃ j, last (JokeState.jokes s) = Some j
            ∧ Update.jokes u
              = Some [Joke.set_approved j
                        (negb (Py.len (Joke.text j) <? 40))]))
  ∧ (∀ s w u w',
       show_menu s w = Ok (u, w') ∨ update_category s w = Ok (u, w')
       ∨ exit_bot s w = Ok (u, w') ->
       Update.jokes u = None
       ∧ JokeState.jokes (apply_update s u) = JokeState.jokes s).
Proof.
  split; [exact reachable_jokes|]. split; [|split; [done|split; [|split]]].
  - intros w c t Hr. apply reachable_jokes.
    eapply reachable_run; [apply (reachable_start w) | exact Hr].
  - intros s w u w' Hf.
    apply writer_node_inv in Hf as (t & c & -> & _). by exists t, c.
  - intros s w u w' Hf.
    apply critic_node_inv in Hf as [(He & -> & _)|(j & Hl & ->)];
      [by left | right; by exists j].
  - intros s w u w' [Hf|[Hf|Hf]].
    + by apply show_menu_inv in Hf as (c & -> & _).
    + by apply update_category_inv in Hf as (c & -> & _).
    + by injection Hf as <- _.
Qed.

Lemma C10_witness :
  main_invoke long_session = Ok long_session_end
  ∧ length (JokeState.jokes (state long_session_end.1)) ≤ 1.
Proof.
  assert (Hr : main_invoke long_session
               = Ok (long_session_end.1, long_session_end.2))
    by (vm_compute; reflexivity).
  split; [exact Hr|].
  exact (proj1 (proj2 C10_history_at_most_one) _ _ _ Hr).
Defined.

(** ** Whole rounds *)

Lemma show_menu_valid (s : JokeState.t) (w : World) (line : string)
    (rest : list string) :
  stdin w = line :: rest -> Py.lower (Py.strip line) ∈ ["n"; "c"; "q"] ->
  show_menu s w
  = Ok (Update.of_jokes_choice (Py.lower (Py.strip line)),
        set_console w rest (stdout w ++ [menu_prompt])).
Proof.
  intros Hin Hm. unfold show_menu, input. rewrite Hin. cbn.
  rewrite decide_False by (intros Hn; by apply Hn). reflexivity.
Qed.

Lemma writer_node_plain (s : JokeState.t) (w : World) (joke : string) :
  JokeState.category s ≠ "all" ->
  get_joke w (JokeState.language s) (JokeState.category s)
    (random_draws w (random_pos w)) = Ok joke ->
  writer_node s w
  = Ok (Update.of_jokes [Joke.new joke (JokeState.category s)],
        print (writer_message (JokeState.category s)) (random_draw w).2).
Proof.
  intros Hc Hj. unfold writer_node. rewrite decide_False by done.
  cbn. unfold call_get_joke. cbn. rewrite Hj. reflexivity.
Qed.

(** One round on the choice "n" with a joke that the critic approves:
    three steps, after which the history is that one joke, whatever it
    was before. *)
Lemma round_next (s : JokeState.t) (w : World) (line joke : string)
    (rest trace : list string) (limit : nat) :
  stdin w = line :: rest -> Py.lower (Py.strip line) = "n" ->
  JokeState.category s ≠ "all" ->
  (∀ l c d, get_joke w l c d = Ok joke) -> 40 ≤ Py.len joke ->
  ∃ w',
    stdin w' = rest ∧ get_joke w' = get_joke w
    ∧ run build_joke_graph (S (S (S limit)))
        {| node := "show_menu"; state := s; world := w |} trace
      = run build_joke_graph limit
          {| node := "show_menu"; state := after_round s joke; world := w' |}
          (trace ++ ["show_menu"; "writer"; "critic"]).
Proof.
  intros Hin Hq Hc Hsrc Hlen.
  pose proof (show_menu_valid s w line rest Hin) as Hm.
  rewrite Hq in Hm. specialize (Hm ltac:(by apply (bool_decide_unpack _))).
  set (w1 := set_console w rest (stdout w ++ [menu_prompt])) in *.
  set (s1 := apply_update s (Update.of_jokes_choice "n")).
  pose proof (writer_node_plain s1 w1 joke Hc (Hsrc _ _ _)) as Hw.
  set (w2 := print (writer_message (JokeState.category s1)) (random_draw w1).2)
    in *.
  set (s2 := apply_update s1
               (Update.of_jokes [Joke.new joke (JokeState.category s1)])).
  pose proof (critic_node_last s2 w2 (Joke.new joke (JokeState.category s1))
                eq_refl) as Hcr.
  cbn [Joke.text Joke.new] in Hcr.
  replace (Py.len joke <? 40) with false in Hcr
    by (symmetry; apply Nat.ltb_ge; lia).
  eexists. split; [|split]; cycle 2.
  - erewrite run_step;
      [|discriminate | by apply step_show_menu with (w' := w1)
                           (u := Update.of_jokes_choice "n")].
    erewrite run_step; [|discriminate | apply step_writer, Hw].
    erewrite run_step; [|discriminate | apply step_critic, Hcr].
    rewrite <- !app_assoc. reflexivity.
  - reflexivity.
  - reflexivity.
Qed.

(** The round on the choice "q": two steps, and the run is over. *)
Lemma round_quit (s : JokeState.t) (w : World) (line : string)
    (rest trace : list string) (limit : nat) :
  stdin w = line :: rest -> Py.lower (Py.strip line) = "q" ->
  run build_joke_graph (S (S limit))
    {| node := "show_menu"; state := s; world := w |} trace
  = Ok ({| node := END;
           state := apply_update (apply_update s (Update.of_jokes_choice "q"))
                      (Update.of_quit true);
           world := print exit_message
                      (set_console w rest (stdout w ++ [menu_prompt])) |},
        trace ++ ["show_menu"; "exit_bot"]).
Proof.
  intros Hin Hq.
  pose proof (show_menu_valid s w line rest Hin) as Hm.
  rewrite Hq in Hm. specialize (Hm ltac:(by apply (bool_decide_unpack _))).
  erewrite run_step;
    [|discriminate
     | by apply step_show_menu with (u := Update.of_jokes_choice "q")
            (w' := set_console w rest (stdout w ++ [menu_prompt]))].
  erewrite run_step; [|discriminate | apply step_exit_bot].
  rewrite run_END by done. by rewrite <- !app_assoc.
Qed.

(** C1, as the code runs: on the console input "n", "n", "q" the writer
    runs a second time from a state with one joke in the history, and the
    state after that step has one joke again, the new one: the history
    did not grow. *)
Theorem C1_second_writer_step_keeps_length :
  reachable before_second_writer
  ∧ length (JokeState.jokes (state before_second_writer)) = 1
  ∧ ∃ c',
      step build_joke_graph before_second_writer = Ok c'
      ∧ node c' = "critic"
      ∧ JokeState.jokes (state c') = [Joke.new fifty "neutral"]
      ∧ length (JokeState.jokes (state c')) = 1.
Proof.
  split; [|split; [reflexivity|]].
  - apply reachable_run_steps with (k := 4)
      (c := {| node := "show_menu"; state := JokeState.default;
               world := stub_world ["n"; "n"; "q"] fifty |}).
    + apply reachable_start.
    + vm_compute. reflexivity.
  - eexists. split; [apply step_writer, writer_node_plain|];
      [discriminate | reflexivity | by repeat split].
Qed.

(** C2, as the code runs: on the console input "n", "n", "q" with a joke
    source that always answers the same text of 50 characters, the run of
    [main] ends with [quit] true after two rounds of writer and critic,
    and the final history holds one joke, approved and of category
    "neutral", rather than two. *)
Theorem C2_two_rounds_leave_one_joke (joke : string) :
  Py.len joke = 50 ->
  ∃ c,
    main_invoke (stub_world ["n"; "n"; "q"] joke)
    = Ok (c, ["show_menu"; "writer"; "critic"; "show_menu"; "writer";
              "critic"; "show_menu"; "exit_bot"])
    ∧ node c = END
    ∧ JokeState.quit (state c) = true
    ∧ JokeState.jokes (state c)
      = [{| Joke.text := joke; Joke.category := "neutral";
            Joke.approved := true |}]
    ∧ length (JokeState.jokes (state c)) = 1.
Proof.
  intros Hlen. unfold main_invoke, invoke.
  change (entry_point build_joke_graph) with (Some "show_menu").
  cbv beta iota.
  destruct (round_next JokeState.default (stub_world ["n"; "n"; "q"] joke)
              "n" joke ["n"; "q"] [] 97 eq_refl eq_refl)
    as (w1 & Hin1 & Hsrc1 & Hr1); [discriminate | done | lia |].
  destruct (round_next (after_round JokeState.default joke) w1
              "n" joke ["q"] ["show_menu"; "writer"; "critic"] 94 Hin1 eq_refl)
    as (w2 & Hin2 & _ & Hr2);
    [discriminate | by rewrite Hsrc1 | lia |].
  rewrite Hr1. cbn [app]. rewrite Hr2. cbn [app].
  rewrite (round_quit _ w2 "q" [] _ 92 Hin2 eq_refl).
  eexists. split; [reflexivity|]. by repeat split.
Qed.

Lemma C2_witness :
  ∃ c t,
    main_invoke (stub_world ["n"; "n"; "q"] fifty) = Ok (c, t)
    ∧ JokeState.quit (state c) = true
    ∧ length (JokeState.jokes (state c)) = 1.
Proof.
  destruct (C2_two_rounds_leave_one_joke fifty eq_refl)
    as (c & Hr & _ & Hq & _ & Hl).
  eexists c, _. split; [exact Hr|]. split; [exact Hq | exact Hl].
Defined.

(** * Further properties of the nodes and of whole runs *)

(** ** The world across a node *)

Lemma extends_refl (w : World) : extends w w.
Proof.
  repeat split; [by exists [] | exists []; by rewrite app_nil_r | lia].
Qed.

Lemma extends_trans (w1 w2 w3 : World) :
  extends w1 w2 -> extends w2 w3 -> extends w1 w3.
Proof.
  intros ([u1 H1] & [a1 H2] & H3 & H4 & H5) ([u2 H6] & [a2 H7] & H8 & H9 & H10).
  repeat split.
  - exists (u1 ++ u2). by rewrite H1, H6, app_assoc.
  - exists (a1 ++ a2). by rewrite H7, H2, app_assoc.
  - congruence.
  - lia.
  - congruence.
Qed.

Lemma extends_print (text : string) (w : World) : extends w (print text w).
Proof. repeat split; [by exists [] | by exists [text] | cbn; lia]. Qed.

Lemma extends_random_draw (w : World) : extends w (random_draw w).2.
Proof.
  repeat split; [by exists [] | exists []; cbn; by rewrite app_nil_r | cbn; lia].
Qed.

Lemma show_menu_full (s : JokeState.t) (w w' : World) (u : Update.t) :
  show_menu s w = Ok (u, w') ->
  ∃ line rest,
    stdin w = line :: rest
    ∧ u = Update.of_jokes_choice
            (if decide (Py.lower (Py.strip line) ∈ ["n"; "c"; "q"])
             then Py.lower (Py.strip line) else "n")
    ∧ w' = (if decide (Py.lower (Py.strip line) ∈ ["n"; "c"; "q"])
            then set_console w rest (stdout w ++ [menu_prompt])
            else print "Invalid input. Defaulting to 'n'."
                   (set_console w rest (stdout w ++ [menu_prompt]))).
Proof.
  unfold show_menu, input. destruct (stdin w) as [|line rest]; [discriminate|].
  cbn. intros H. exists line, rest. split; [done|].
  destruct (decide (Py.lower (Py.strip line) ∈ ["n"; "c"; "q"])) as [Hm|Hm].
  - rewrite decide_False in H by (intros Hn; by apply Hn).
    by injection H as <- <-.
  - rewrite decide_True in H by done. by injection H as <- <-.
Qed.

Lemma show_menu_extends (s : JokeState.t) (w w' : World) (u : Update.t) :
  show_menu s w = Ok (u, w') -> extends w w'.
Proof.
  intros H. apply show_menu_full in H as (line & rest & Hin & _ & ->).
  assert (He : extends w (set_console w rest (stdout w ++ [menu_prompt]))).
  { repeat split; [by exists [line] | by exists [menu_prompt] | cbn; lia]. }
  case_decide; [done|]. eapply extends_trans; [exact He|apply extends_print].
Qed.

Lemma writer_node_full (s : JokeState.t) (w w' : World) (u : Update.t) :
  writer_node s w = Ok (u, w') ->
  ∃ joke_text category w1,
    u = Update.of_jokes [Joke.new joke_text category]
    ∧ (if decide (JokeState.category s = "all")
       then category ∈ ["neutral"; "chuck"] ∧ w1 = (random_draw w).2
       else category = JokeState.category s ∧ w1 = w)
    ∧ get_joke w (JokeState.language s) category
        (random_draws w (random_pos w1)) = Ok joke_text
    ∧ w' = print (writer_message category) (random_draw w1).2.
Proof.
  unfold writer_node. intros H.
  apply bind_Ok in H as ([category w1] & Hc & H).
  apply bind_Ok in H as ([joke_text w2] & Hj & H).
  injection H as <- <-. exists joke_text, category, w1.
  unfold call_get_joke in Hj. cbn [random_draw] in Hj.
  apply bind_Ok in Hj as (t & Hj & Ht). injection Ht as <- <-.
  assert (Hw1 : get_joke w1 = get_joke w ∧ random_draws w1 = random_draws w
    ∧ (if decide (JokeState.category s = "all")
       then category ∈ ["neutral"; "chuck"] ∧ w1 = (random_draw w).2
       else category = JokeState.category s ∧ w1 = w)).
  { case_decide.
    - pose proof (random_choice_inv _ _ _ _ Hc) as Hin.
      unfold random_choice in Hc. cbn [random_draw] in Hc.
      destruct (_ !! _); [|discriminate]. by injection Hc as <- <-.
    - by injection Hc as <- <-. }
  destruct Hw1 as (Hg & Hd & Hcat).
  rewrite Hg, Hd in Hj. by repeat split.
Qed.

Lemma writer_node_extends (s : JokeState.t) (w w' : World) (u : Update.t) :
  writer_node s w = Ok (u, w') -> extends w w'.
Proof.
  intros H. apply writer_node_full in H as (t & c & w1 & _ & Hw1 & _ & ->).
  assert (He : extends w w1).
  { case_decide; destruct Hw1 as [_ ->];
      [apply extends_random_draw | apply extends_refl]. }
  eapply extends_trans; [exact He|].
  eapply extends_trans; [apply extends_random_draw | apply extends_print].
Qed.

Lemma critic_node_extends (s : JokeState.t) (w w' : World) (u : Update.t) :
  critic_node s w = Ok (u, w') -> extends w w'.
Proof.
  destruct (last (JokeState.jokes s)) as [j|] eqn:Hl.
  - rewrite (critic_node_last s w j Hl). intros [= _ <-].
    destruct (Py.len (Joke.text j) <? 40); [apply extends_print|].
    eapply extends_trans; apply extends_print.
  - apply last_None in Hl. rewrite (critic_node_empty s w Hl).
    intros [= _ <-]. apply extends_refl.
Qed.

(** ** The category loop, line by line *)

Lemma selection_error_accepts (line : string) :
  selection_error line = None ->
  ∃ k c, Py.int (Py.strip line) = Some (Z.of_nat k) ∧ categories !! k = Some c.
Proof.
  intros H. apply selection_error_None in H as (i & Hi & Hr).
  exists (Z.to_nat i).
  assert (Hc : is_Some (categories !! Z.to_nat i))
    by (apply lookup_lt_is_Some; cbn; lia).
  destruct Hc as [c Hc]. exists c. split; [|done].
  rewrite Z2Nat.id by lia. done.
Qed.

Lemma update_category_loop_cases (lines out : list string) :
  (Forall (fun l => is_Some (selection_error l)) lines
   ∧ update_category_loop lines out = Raise EOFError)
  ∨ (∃ bad line rest k,
       lines = bad ++ line :: rest
       ∧ Forall (fun l => is_Some (selection_error l)) bad
       ∧ selection_error line = None
       ∧ Py.int (Py.strip line) = Some k
       ∧ update_category_loop lines out
         = Ok (k, rest, out ++ retries bad ++ [category_prompt])).
Proof.
  revert out. induction lines as [|l lines IH]; intros out.
  - left. by split.
  - destruct (selection_error l) as [e|] eqn:He.
    + assert (Hl : update_category_loop (l :: lines) out
                   = update_category_loop lines
                       (out ++ [category_prompt; e])).
      { cbn [update_category_loop]. unfold selection_error in He.
        destruct (Py.int (Py.strip l)) as [sel|].
        - case_decide; [discriminate|]. injection He as <-.
          by rewrite <- app_assoc.
        - injection He as <-. by rewrite <- app_assoc. }
      destruct (IH (out ++ [category_prompt; e]))
        as [[Hall Hr]|(bad & line & rest & k & -> & Hbad & Hok & Hk & Hr)].
      * left. split; [constructor; [by eexists | done]|]. by rewrite Hl.
      * right. exists (l :: bad), line, rest, k.
        split; [done|]. split; [constructor; [by eexists | done]|].
        split; [done|]. split; [done|]. rewrite Hl, Hr.
        cbn [retries flat_map]. fold (retries bad). rewrite He. cbn.
        by rewrite <- !app_assoc.
    + right. pose proof He as Hacc.
      apply selection_error_None in Hacc as (k & Hk & Hr).
      exists [], l, lines, k. split; [done|]. split; [done|].
      split; [done|]. split; [done|].
      cbn. rewrite Hk. rewrite decide_True by (cbn; lia). reflexivity.
Qed.

Lemma update_category_full (s : JokeState.t) (w w' : World) (u : Update.t) :
  update_category s w = Ok (u, w') ->
  ∃ bad line k c,
    stdin w = bad ++ line :: stdin w'
    ∧ Forall (fun l => is_Some (selection_error l)) bad
    ∧ Py.int (Py.strip line) = Some (Z.of_nat k)
    ∧ categories !! k = Some c
    ∧ u = Update.of_category c
    ∧ w' = print (category_message c)
             (set_console w (stdin w')
                (stdout w ++ retries bad ++ [category_prompt])).
Proof.
  unfold update_category.
  destruct (update_category_loop_cases (stdin w) (stdout w))
    as [[_ Hr]|(bad & line & rest & i & Hin & Hbad & Hok & Hi & Hr)];
    rewrite Hr; [discriminate|].
  cbn [mbind result_bind].
  apply selection_error_accepts in Hok as (k & c & Hk & Hc).
  assert (i = Z.of_nat k) as -> by congruence.
  rewrite Nat2Z.id, Hc. intros [= <- <-].
  exists bad, line, k, c. by repeat split.
Qed.

Lemma update_category_extends (s : JokeState.t) (w w' : World) (u : Update.t) :
  update_category s w = Ok (u, w') -> extends w w'.
Proof.
  intros H.
  apply update_category_full in H as (bad & line & k & c & Hin & _ & _ & _ & _ & Hw).
  split; [exists (bad ++ [line]); by rewrite Hin, <- app_assoc|].
  split; [eexists; rewrite Hw; cbn; by rewrite <- !app_assoc|].
  repeat split; rewrite Hw; cbn; (done || lia).
Qed.

(** ** One step of the graph, by cases *)

Lemma step_cases (c c' : Config) :
  step build_joke_graph c = Ok c' ->
  ∃ u,
    state c' = apply_update (state c) u
    ∧ ((node c = "show_menu" ∧ show_menu (state c) (world c) = Ok (u, world c')
        ∧ node c' = route_choice (state c'))
       ∨ (node c = "writer"
          ∧ writer_node (state c) (world c) = Ok (u, world c')
          ∧ node c' = "critic")
       ∨ (node c = "critic"
          ∧ critic_node (state c) (world c) = Ok (u, world c')
          ∧ node c' = "show_menu")
       ∨ (node c = "update_category"
          ∧ update_category (state c) (world c) = Ok (u, world c')
          ∧ node c' = "show_menu")
       ∨ (node c = "exit_bot"
          ∧ exit_bot (state c) (world c) = Ok (u, world c')
          ∧ node c' = END)).
Proof.
  unfold step.
  destruct (nodes build_joke_graph !! node c) as [f|] eqn:Hn; [|done].
  intros H. apply bind_Ok in H as ([u w'] & Hf & H).
  apply bind_Ok in H as (n & Hs & H). injection H as <-.
  exists u. split; [done|]. cbn [node state world].
  destruct (nodes_build_joke_graph _ f Hn)
    as [[Hnode ->]|[[Hnode ->]|[[Hnode ->]|[[Hnode ->]|[Hnode ->]]]]];
    rewrite Hnode in Hs.
  - rewrite successor_show_menu in Hs. injection Hs as <-. by left.
  - injection Hs as <-. right; by left.
  - injection Hs as <-. do 2 right; by left.
  - injection Hs as <-. do 3 right; by left.
  - injection Hs as <-. by do 4 right.
Qed.

Lemma route_choice_cases (s : JokeState.t) :
  (JokeState.jokes_choice s = "n" ∧ route_choice s = "writer")
  ∨ (JokeState.jokes_choice s = "c" ∧ route_choice s = "update_category")
  ∨ (JokeState.jokes_choice s ≠ "n" ∧ JokeState.jokes_choice s ≠ "c"
     ∧ route_choice s = "exit_bot").
Proof.
  unfold route_choice. repeat case_decide; auto.
Qed.

Lemma run_step_Raise (g : StateGraph) (limit : nat) (c : Config)
    (trace : list string) (e : exception) :
  node c ≠ END -> step g c = Raise e -> run g (S limit) c trace = Raise e.
Proof. intros Hn Hs. cbn. rewrite decide_False by done. by rewrite Hs. Qed.

(** ** Invariants of the runs of [main] *)

Lemma reachable_long_session_end : reachable long_session_end.1.
Proof.
  apply (reachable_run 100
           {| node := "show_menu"; state := JokeState.default;
              world := long_session |} _ [] long_session_end.2).
  - apply reachable_start.
  - vm_compute. reflexivity.
Qed.

Lemma reachable_before_second_writer : reachable before_second_writer.
Proof.
  apply reachable_run_steps with (k := 4)
    (c := {| node := "show_menu"; state := JokeState.default;
             world := stub_world ["n"; "n"; "q"] fifty |}).
  - apply reachable_start.
  - vm_compute. reflexivity.
Qed.

Lemma reachable_fields (c : Config) :
  reachable c ->
  node c ∈ node_names
  ∧ JokeState.jokes_choice (state c) ∈ ["n"; "c"; "q"]
  ∧ JokeState.category (state c) ∈ categories
  ∧ JokeState.language (state c) = "en".
Proof.
  induction 1 as [w|c c' _ (IHn & IHj & IHc & IHl) _ Hs].
  - cbn. repeat split; by apply (bool_decide_unpack _).
  - apply step_cases in Hs
      as (u & -> & [(_ & Hf & ->)|[(_ & Hf & ->)|[(_ & Hf & ->)
                   |[(_ & Hf & ->)|(_ & Hf & ->)]]]]).
    + apply show_menu_inv in Hf as (x & -> & Hx). cbn.
      split; [|by repeat split].
      destruct (route_choice_cases
                  (apply_update (state c) (Update.of_jokes_choice x)))
        as [[_ ->]|[[_ ->]|(_ & _ & ->)]]; by apply (bool_decide_unpack _).
    + apply writer_node_inv in Hf as (t & x & -> & _). cbn.
      split; [by apply (bool_decide_unpack _) | by repeat split].
    + split; [by apply (bool_decide_unpack _)|].
      by apply critic_node_inv in Hf as [(_ & -> & _)|(j & _ & ->)].
    + apply update_category_inv in Hf as (x & -> & Hx). cbn.
      split; [by apply (bool_decide_unpack _) | by repeat split].
    + injection Hf as <- _. cbn.
      split; [by apply (bool_decide_unpack _) | by repeat split].
Qed.

(** X1: in every state a run of [main] passes through, the menu choice
    is one of "n", "c", "q", the session category is one of "neutral",
    "chuck", "all", the language is still "en", and the run stands at one
    of the five nodes or at the end. *)
Theorem X1_state_fields_stay_valid (c : Config) :
  reachable c ->
  node c ∈ node_names
  ∧ JokeState.jokes_choice (state c) ∈ ["n"; "c"; "q"]
  ∧ JokeState.category (state c) ∈ categories
  ∧ JokeState.language (state c) = "en".
Proof. apply reachable_fields. Qed.

Lemma X1_witness :
  JokeState.category (state long_session_end.1) ∈ categories.
Proof.
  refine (proj1 (proj2 (proj2 (X1_state_fields_stay_valid
                                 long_session_end.1 _)))).
  apply (reachable_run 100
           {| node := "show_menu"; state := JokeState.default;
              world := long_session |} _ [] long_session_end.2).
  - apply reachable_start.
  - vm_compute. reflexivity.
Defined.

(** X2: [quit] is true in a state of a run of [main] exactly when the run
    has ended: no node before the exit sets it, and the exit is followed
    by nothing. *)
Theorem X2_quit_exactly_at_the_end (c : Config) :
  reachable c -> (JokeState.quit (state c) = true ↔ node c = END).
Proof.
  induction 1 as [w|c c' _ IH Hn Hs]; [by cbn|].
  assert (Hq : JokeState.quit (state c) = false).
  { destruct (JokeState.quit (state c)); [|done]. exfalso. by apply Hn, IH. }
  apply step_cases in Hs
    as (u & -> & [(_ & Hf & ->)|[(_ & Hf & ->)|[(_ & Hf & ->)
                 |[(_ & Hf & ->)|(_ & Hf & ->)]]]]).
  - apply show_menu_inv in Hf as (x & -> & Hx).
    destruct (route_choice_cases
                (apply_update (state c) (Update.of_jokes_choice x)))
      as [[_ ->]|[[_ ->]|(_ & _ & ->)]]; cbn; by rewrite Hq.
  - apply writer_node_inv in Hf as (t & x & -> & _). cbn. by rewrite Hq.
  - apply critic_node_inv in Hf as [(_ & -> & _)|(j & _ & ->)];
      cbn; by rewrite Hq.
  - apply update_category_inv in Hf as (x & -> & Hx). cbn. by rewrite Hq.
  - by injection Hf as <- _.
Qed.

Lemma X2_witness :
  JokeState.quit (state before_second_writer) = true
  ↔ node before_second_writer = END.
Proof.
  apply X2_quit_exactly_at_the_end.
  apply reachable_run_steps with (k := 4)
    (c := {| node := "show_menu"; state := JokeState.default;
             world := stub_world ["n"; "n"; "q"] fifty |}).
  - apply reachable_start.
  - vm_compute. reflexivity.
Defined.

(** X3: every joke in the history of a run of [main] carries the category
    "neutral" or "chuck"; the session value "all" never gets onto a
    record. *)
Theorem X3_records_carry_concrete_categories (c : Config) :
  reachable c ->
  Forall (fun j => Joke.category j ∈ ["neutral"; "chuck"])
    (JokeState.jokes (state c)).
Proof.
  induction 1 as [w|c c' Hc IH _ Hs]; [by cbn|].
  destruct (reachable_fields c Hc) as (_ & _ & Hcat & _).
  apply step_cases in Hs
    as (u & -> & [(_ & Hf & _)|[(_ & Hf & _)|[(_ & Hf & _)
                 |[(_ & Hf & _)|(_ & Hf & _)]]]]).
  - by apply show_menu_inv in Hf as (x & -> & _).
  - apply writer_node_inv in Hf as (t & x & -> & Hx). cbn.
    constructor; [|done]. cbn. case_decide as Hall; [done|]. subst x.
    unfold categories in Hcat.
    rewrite !elem_of_cons in Hcat. rewrite !elem_of_cons. tauto.
  - apply critic_node_inv in Hf as [(_ & -> & _)|(j & Hl & ->)]; [done|].
    cbn. constructor; [|done]. cbn.
    rewrite Forall_forall in IH. apply IH.
    apply last_Some in Hl as [l' ->]. apply elem_of_app. right. by left.
  - by apply update_category_inv in Hf as (x & -> & _).
  - by injection Hf as <- _.
Qed.

Lemma X3_witness :
  Forall (fun j => Joke.category j ∈ ["neutral"; "chuck"])
    (JokeState.jokes (state long_session_end.1)).
Proof.
  apply X3_records_carry_concrete_categories.
  apply (reachable_run 100
           {| node := "show_menu"; state := JokeState.default;
              world := long_session |} _ [] long_session_end.2).
  - apply reachable_start.
  - vm_compute. reflexivity.
Defined.

(** X4: whenever a run of [main] is not about to enter the critic, every
    joke of the history carries the verdict of the 40-character rule: the
    flag of a record is wrong only between the writer and the critic. *)
Theorem X4_verdicts_follow_the_rule (c : Config) :
  reachable c -> node c ≠ "critic" ->
  Forall (fun j => Joke.approved j = verdict (Joke.text j))
    (JokeState.jokes (state c)).
Proof.
  induction 1 as [w|c c' Hc IH _ Hs]; [by cbn|].
  apply step_cases in Hs
    as (u & -> & [(Hn & Hf & _)|[(Hn & Hf & Hn')|[(Hn & Hf & _)
                 |[(Hn & Hf & _)|(Hn & Hf & _)]]]]); intros Hnc.
  - apply show_menu_inv in Hf as (x & -> & _). apply IH. by rewrite Hn.
  - done.
  - apply critic_node_inv in Hf as [(He & -> & _)|(j & Hl & ->)].
    + cbn. by rewrite He.
    + cbn. by constructor.
  - apply update_category_inv in Hf as (x & -> & _). apply IH. by rewrite Hn.
  - injection Hf as <- _. apply IH. by rewrite Hn.
Qed.

Lemma X4_witness :
  Forall (fun j => Joke.approved j = verdict (Joke.text j))
    (JokeState.jokes (state long_session_end.1)).
Proof.
  apply X4_verdicts_follow_the_rule.
  - apply (reachable_run 100
             {| node := "show_menu"; state := JokeState.default;
                world := long_session |} _ [] long_session_end.2).
    + apply reachable_start.
    + vm_compute. reflexivity.
  - vm_compute. intros H. discriminate H.
Defined.

(** ** What a run reads and writes *)

Lemma step_extends (c c' : Config) :
  step build_joke_graph c = Ok c' -> extends (world c) (world c').
Proof.
  intros Hs. apply step_cases in Hs
    as (u & _ & [(_ & Hf & _)|[(_ & Hf & _)|[(_ & Hf & _)
                |[(_ & Hf & _)|(_ & Hf & _)]]]]).
  - by eapply show_menu_extends.
  - by eapply writer_node_extends.
  - by eapply critic_node_extends.
  - by eapply update_category_extends.
  - injection Hf as _ <-. apply extends_print.
Qed.

Lemma run_extends (limit : nat) (c c' : Config) (t t' : list string) :
  run build_joke_graph limit c t = Ok (c', t') ->
  extends (world c) (world c').
Proof.
  revert c t. induction limit as [|limit IH]; intros c t; cbn.
  - case_decide; [|discriminate]. intros [= <- _]. apply extends_refl.
  - case_decide; [intros [= <- _]; apply extends_refl|].
    intros Hr. apply bind_Ok in Hr as (c1 & Hs & Hr).
    eapply extends_trans; [by apply step_extends | by eapply IH].
Qed.

(** X5: a session that ends has read its console input from the front and
    left the rest unread, has only added to the console output, and has
    not touched the joke source or the draws of the random generator. *)
Theorem X5_session_reads_forward (w : World) (c : Config) (t : list string) :
  main_invoke w = Ok (c, t) ->
  (∃ used, stdin w = used ++ stdin (world c))
  ∧ (∃ added, stdout (world c) = stdout w ++ added)
  ∧ get_joke (world c) = get_joke w
  ∧ random_draws (world c) = random_draws w.
Proof.
  intros Hr. apply run_extends in Hr as (Hin & Hout & Hd & _ & Hg).
  by repeat split.
Qed.

Lemma X5_witness :
  ∃ used, stdin long_session = used ++ stdin (world long_session_end.1).
Proof.
  refine (proj1 (X5_session_reads_forward long_session long_session_end.1
                   long_session_end.2 _)).
  vm_compute. reflexivity.
Defined.

(** ** The only way out *)

Lemma step_exit_bot_inv (c c' : Config) :
  node c = "exit_bot" -> step build_joke_graph c = Ok c' ->
  node c' = END ∧ JokeState.quit (state c') = true.
Proof.
  destruct c as [n s w]. cbn. intros ->. rewrite step_exit_bot.
  by intros [= <-].
Qed.

Lemma run_Ok_ends (limit : nat) (c c' : Config) (t t' : list string) :
  run build_joke_graph limit c t = Ok (c', t') ->
  node c ∈ ["show_menu"; "writer"; "critic"; "update_category"] ->
  (∃ line, line ∈ stdin (world c) ∧ Py.lower (Py.strip line) = "q")
  ∧ node c' = END
  ∧ JokeState.quit (state c') = true
  ∧ ∃ t0, t' = t0 ++ ["show_menu"; "exit_bot"].
Proof.
  revert c t. induction limit as [|limit IH]; intros c t Hr Hn.
  { cbn in Hr. case_decide as He; [|discriminate].
    rewrite He in Hn. exfalso. revert Hn. by apply (bool_decide_unpack _). }
  cbn in Hr. case_decide as He.
  { rewrite He in Hn. exfalso. revert Hn. by apply (bool_decide_unpack _). }
  apply bind_Ok in Hr as (c1 & Hs & Hr).
  pose proof (step_extends c c1 Hs) as ([used Hused] & _).
  assert (Hgo : node c1 ∈ ["show_menu"; "writer"; "critic"; "update_category"]
                -> (∃ line, line ∈ stdin (world c)
                      ∧ Py.lower (Py.strip line) = "q")
                   ∧ node c' = END ∧ JokeState.quit (state c') = true
                   ∧ ∃ t0, t' = t0 ++ ["show_menu"; "exit_bot"]).
  { intros Hn1.
    destruct (IH c1 _ Hr Hn1) as ((line & Hl & Hq) & Hrest).
    split; [|done]. exists line. split; [|done].
    rewrite Hused. apply elem_of_app. by right. }
  pose proof Hs as Hs'.
  apply step_cases in Hs'
    as (u & Hst & [(Hc & Hf & Hn1)|[(Hc & Hf & Hn1)|[(Hc & Hf & Hn1)
                  |[(Hc & Hf & Hn1)|(Hc & Hf & Hn1)]]]]).
  - apply show_menu_full in Hf as (line & rest & Hin & -> & _).
    destruct (route_choice_cases (state c1)) as [[_ Hr1]|[[_ Hr1]|(Hx & Hy & Hr1)]];
      rewrite Hr1 in Hn1.
    + apply Hgo. rewrite Hn1. by apply (bool_decide_unpack _).
    + apply Hgo. rewrite Hn1. by apply (bool_decide_unpack _).
    + rewrite Hst in Hx, Hy. cbn in Hx, Hy.
      assert (Hq : Py.lower (Py.strip line) = "q").
      { case_decide as Hm; [|done].
        rewrite !elem_of_cons, elem_of_nil in Hm. tauto. }
      split; [exists line; split; [rewrite Hin; by left | done]|].
      destruct limit as [|limit]; cbn in Hr.
      { rewrite decide_False in Hr by (by rewrite Hn1). discriminate. }
      rewrite decide_False in Hr by (by rewrite Hn1).
      apply bind_Ok in Hr as (c2 & Hs2 & Hr).
      destruct (step_exit_bot_inv c1 c2 Hn1 Hs2) as [Hend Hquit].
      rewrite run_END in Hr by done. injection Hr as <- <-.
      split; [done|]. split; [done|]. exists t.
      by rewrite Hc, Hn1, <- app_assoc.
  - apply Hgo. rewrite Hn1. by apply (bool_decide_unpack _).
  - apply Hgo. rewrite Hn1. by apply (bool_decide_unpack _).
  - apply Hgo. rewrite Hn1. by apply (bool_decide_unpack _).
  - rewrite Hc in Hn. exfalso. revert Hn. by apply (bool_decide_unpack _).
Qed.

(** X6: the menu choice "q" is the only way out.  When the run of [main]
    returns, some line of the console input was a "q" after stripping and
    lower-casing, the last two steps were the menu and the exit, and
    [quit] is true; so a session whose input holds no such line never
    returns a state. *)
Theorem X6_quit_is_the_only_way_out (w : World) (c : Config)
    (t : list string) :
  main_invoke w = Ok (c, t) ->
  (∃ line, line ∈ stdin w ∧ Py.lower (Py.strip line) = "q")
  ∧ node c = END
  ∧ JokeState.quit (state c) = true
  ∧ ∃ t0, t = t0 ++ ["show_menu"; "exit_bot"].
Proof.
  intros Hr. apply run_Ok_ends in Hr; [done|].
  by apply (bool_decide_unpack _).
Qed.

Lemma X6_witness :
  ∃ t0, long_session_end.2 = t0 ++ ["show_menu"; "exit_bot"].
Proof.
  refine (proj2 (proj2 (proj2 (X6_quit_is_the_only_way_out long_session
            long_session_end.1 long_session_end.2 _)))).
  vm_compute. reflexivity.
Defined.

(** ** How a run can fail *)

Lemma bind_Raise {A B : Type} (m : result A) (f : A -> result B)
    (e : exception) :
  m ≫= f = Raise e -> m = Raise e ∨ ∃ a, m = Ok a ∧ f a = Raise e.
Proof.
  destruct m as [a|e']; cbn; [intros H; right; by exists a|].
  intros [= ->]. by left.
Qed.

Lemma show_menu_Raise (s : JokeState.t) (w : World) (e : exception) :
  show_menu s w = Raise e -> e = EOFError ∧ stdin w = [].
Proof.
  unfold show_menu, input. destruct (stdin w) as [|line rest].
  - by intros [= <-].
  - cbn. by case_decide.
Qed.

Lemma writer_node_Raise (s : JokeState.t) (w : World) (e : exception) :
  writer_node s w = Raise e ->
  ∃ category d,
    (if decide (JokeState.category s = "all")
     then category ∈ ["neutral"; "chuck"]
     else category = JokeState.category s)
    ∧ get_joke w (JokeState.language s) category d = Raise e.
Proof.
  unfold writer_node. intros H.
  apply bind_Raise in H as [H|([category w1] & Hc & H)].
  - case_decide; [|discriminate].
    unfold random_choice in H. cbn [random_draw] in H.
    destruct (_ !! _) eqn:Hl; [discriminate|].
    apply lookup_ge_None in Hl. cbn [length] in Hl.
    pose proof (Nat.mod_upper_bound (random_draws w (random_pos w)) 2). lia.
  - apply bind_Raise in H as [H|([t w2] & _ & H)]; [|discriminate].
    unfold call_get_joke in H. cbn [random_draw] in H.
    apply bind_Raise in H as [H|(t & _ & H)]; [|discriminate].
    assert (Hw1 : get_joke w1 = get_joke w
      ∧ (if decide (JokeState.category s = "all")
         then category ∈ ["neutral"; "chuck"]
         else category = JokeState.category s)).
    { case_decide.
      - pose proof (random_choice_inv _ _ _ _ Hc) as Hin.
        unfold random_choice in Hc. cbn [random_draw] in Hc.
        destruct (_ !! _); [|discriminate]. by injection Hc as <- <-.
      - by injection Hc as <- <-. }
    destruct Hw1 as [Hg Hcat]. rewrite Hg in H. by eexists _, _.
Qed.

Lemma critic_node_Ok (s : JokeState.t) (w : World) :
  ∃ u w', critic_node s w = Ok (u, w').
Proof.
  destruct (last (JokeState.jokes s)) as [j|] eqn:Hl.
  - rewrite (critic_node_last s w j Hl). by eexists _, _.
  - apply last_None in Hl. rewrite (critic_node_empty s w Hl). by eexists _, _.
Qed.

Lemma update_category_Raise (s : JokeState.t) (w : World) (e : exception) :
  update_category s w = Raise e ->
  e = EOFError ∧ Forall (fun l => is_Some (selection_error l)) (stdin w).
Proof.
  unfold update_category.
  destruct (update_category_loop_cases (stdin w) (stdout w))
    as [[Hall Hr]|(bad & line & rest & i & Hin & Hbad & Hok & Hi & Hr)];
    rewrite Hr; cbn [mbind result_bind].
  - by intros [= <-].
  - apply selection_error_accepts in Hok as (k & c & Hk & Hc).
    assert (i = Z.of_nat k) as -> by congruence.
    by rewrite Nat2Z.id, Hc.
Qed.

Lemma step_Raise (c : Config) (e : exception) :
  node c ∈ node_names -> node c ≠ END ->
  step build_joke_graph c = Raise e ->
  (e = EOFError
   ∧ (node c = "show_menu" ∧ stdin (world c) = []
      ∨ node c = "update_category"
        ∧ Forall (fun l => is_Some (selection_error l)) (stdin (world c))))
  ∨ (node c = "writer"
     ∧ ∃ category d,
         (if decide (JokeState.category (state c) = "all")
          then category ∈ ["neutral"; "chuck"]
          else category = JokeState.category (state c))
         ∧ get_joke (world c) (JokeState.language (state c)) category d
           = Raise e).
Proof.
  destruct c as [n s w]. cbn [node state world]. intros Hn Hne.
  unfold node_names in Hn. rewrite !elem_of_cons, elem_of_nil in Hn.
  unfold step. cbn [node state world].
  destruct Hn as [->|[->|[->|[->|[->|[->|[]]]]]]]; [| | | | |done].
  - change (nodes build_joke_graph !! "show_menu") with (Some show_menu).
    intros H. apply bind_Raise in H as [H|([u w'] & _ & H)].
    + apply show_menu_Raise in H as [-> Hin]. left. split; [done|]. by left.
    + rewrite successor_show_menu in H. discriminate.
  - change (nodes build_joke_graph !! "writer") with (Some writer_node).
    intros H. apply bind_Raise in H as [H|([u w'] & _ & H)]; [|discriminate].
    right. split; [done|]. by apply writer_node_Raise.
  - change (nodes build_joke_graph !! "critic") with (Some critic_node).
    intros H. apply bind_Raise in H as [H|([u w'] & _ & H)]; [|discriminate].
    destruct (critic_node_Ok s w) as (u & w' & Hc). congruence.
  - change (nodes build_joke_graph !! "update_category")
      with (Some update_category).
    intros H. apply bind_Raise in H as [H|([u w'] & _ & H)]; [|discriminate].
    apply update_category_Raise in H as [-> Hall].
    left. split; [done|]. by right.
  - change (nodes build_joke_graph !! "exit_bot") with (Some exit_bot).
    discriminate.
Qed.

Lemma run_Raise (limit : nat) (c : Config) (t : list string) (e : exception) :
  reachable c -> run build_joke_graph limit c t = Raise e ->
  e = EOFError ∨ e = GraphRecursionError
  ∨ ∃ category d,
      category ∈ ["neutral"; "chuck"]
      ∧ get_joke (world c) "en" category d = Raise e.
Proof.
  revert c t. induction limit as [|limit IH]; intros c t Hc; cbn.
  - case_decide; [discriminate|]. intros [= <-]. auto.
  - case_decide as Hn; [discriminate|]. intros Hr.
    destruct (reachable_fields c Hc) as (Hnode & _ & Hcat & Hlang).
    apply bind_Raise in Hr as [Hr|(c1 & Hs & Hr)].
    + apply step_Raise in Hr as [[-> _]|(_ & x & d & Hx & Hg)];
        [auto| |done|done].
      right; right. exists x, d. rewrite Hlang in Hg. split; [|done].
      case_decide as Hall; [done|]. subst x. unfold categories in Hcat.
      rewrite !elem_of_cons in Hcat. rewrite !elem_of_cons. tauto.
    + pose proof (step_extends c c1 Hs) as (_ & _ & _ & _ & Hg).
      destruct (IH c1 _ (reachable_step c c1 Hc Hn Hs) Hr)
        as [->|[->|(x & d & Hx & Hj)]]; auto.
      right; right. exists x, d. by rewrite <- Hg.
Qed.



Lemma writer_node_fails (s : JokeState.t) (w : World) (e : exception) :
  JokeState.category s ≠ "all" ->
  get_joke w (JokeState.language s) (JokeState.category s)
    (random_draws w (random_pos w)) = Raise e ->
  writer_node s w = Raise e.
Proof.
  intros Hc He. unfold writer_node. rewrite decide_False by done.
  cbn [mbind mret result_bind result_ret]. unfold call_get_joke.
  cbn [random_draw]. by rewrite He.
Qed.

Lemma step_writer_fails (s : JokeState.t) (w : World) (e : exception) :
  writer_node s w = Raise e ->
  step build_joke_graph {| node := "writer"; state := s; world := w |}
  = Raise e.
Proof.
  intros H. unfold step. cbn [node state world].
  change (nodes build_joke_graph !! "writer") with (Some writer_node).
  cbv beta iota. by rewrite H.
Qed.



(** ** The step limit *)

Lemma round_steps (s : JokeState.t) (w : World) (line joke : string)
    (rest : list string) :
  stdin w = line :: rest -> Py.lower (Py.strip line) = "n" ->
  JokeState.category s ≠ "all" ->
  get_joke w (JokeState.language s) (JokeState.category s)
    (random_draws w (random_pos w)) = Ok joke ->
  ∃ c1 c2 w3,
    step build_joke_graph {| node := "show_menu"; state := s; world := w |}
    = Ok c1
    ∧ node c1 = "writer"
    ∧ step build_joke_graph c1 = Ok c2
    ∧ node c2 = "critic"
    ∧ step build_joke_graph c2
      = Ok {| node := "show_menu"; state := after_any_round s joke;
              world := w3 |}
    ∧ stdin w3 = rest
    ∧ get_joke w3 = get_joke w
    ∧ random_draws w3 = random_draws w
    ∧ random_pos w3 = S (random_pos w).
Proof.
  intros Hin Hq Hc Hj.
  pose proof (show_menu_valid s w line rest Hin) as Hm.
  rewrite Hq in Hm. specialize (Hm ltac:(by apply (bool_decide_unpack _))).
  set (w1 := set_console w rest (stdout w ++ [menu_prompt])) in *.
  set (s1 := apply_update s (Update.of_jokes_choice "n")).
  pose proof (writer_node_plain s1 w1 joke Hc Hj) as Hw.
  set (w2 := print (writer_message (JokeState.category s1)) (random_draw w1).2)
    in *.
  set (s2 := apply_update s1
               (Update.of_jokes [Joke.new joke (JokeState.category s1)])).
  pose proof (critic_node_last s2 w2 (Joke.new joke (JokeState.category s1))
                eq_refl) as Hcr.
  pose proof (step_critic s2 w2 _ _ Hcr) as Hs3.
  eexists {| node := "writer"; state := s1; world := w1 |},
          {| node := "critic"; state := s2; world := w2 |}, _.
  split; [by apply step_show_menu|]. split; [done|].
  split; [by apply step_writer|]. split; [done|].
  split; [exact Hs3|].
  cbn [Joke.text Joke.new].
  by destruct (Py.len joke <? 40).
Qed.

Lemma run_out_of_steps (ns : list string) :
  Forall (fun l => Py.lower (Py.strip l) = "n") ns ->
  ∀ (limit : nat) (s : JokeState.t) (w : World) (t rest : list string),
    limit ≤ 3 * length ns -> stdin w = ns ++ rest ->
    JokeState.category s ≠ "all" ->
    (∀ d, ∃ joke,
       get_joke w (JokeState.language s) (JokeState.category s) d = Ok joke) ->
    run build_joke_graph limit
      {| node := "show_menu"; state := s; world := w |} t
    = Raise GraphRecursionError.
Proof.
  induction 1 as [|line ns Hq _ IH]; intros limit s w t rest Hlim Hin Hc Hsrc.
  - cbn in Hlim. by replace limit with 0 by lia.
  - destruct limit as [|limit]; [done|].
    destruct (Hsrc (random_draws w (random_pos w))) as [joke Hj].
    destruct (round_steps s w line joke (ns ++ rest) Hin Hq Hc Hj)
      as (c1 & c2 & w3 & Hs1 & Hn1 & Hs2 & Hn2 & Hs3 & Hin3 & Hg & _).
    rewrite (run_step _ _ _ c1) by done.
    destruct limit as [|limit];
      [cbn; by rewrite decide_False by (by rewrite Hn1)|].
    rewrite (run_step _ _ _ c2) by (done || by rewrite Hn1).
    destruct limit as [|limit];
      [cbn; by rewrite decide_False by (by rewrite Hn2)|].
    erewrite run_step; [|by rewrite Hn2 | exact Hs3].
    apply IH with (rest := rest); [cbn in Hlim; lia | done | done |].
    intros d. rewrite Hg. apply Hsrc.
Qed.

(** X9: the recursion limit 100 caps a session.  Every joke costs three
    steps, so when the console input starts with 34 or more lines that
    read "n" after stripping and lower-casing, and the joke source
    answers, the run of [main] raises [GraphRecursionError], whatever
    follows in the input. *)
Theorem X9_step_limit_caps_the_session (w : World) (ns rest : list string) :
  stdin w = ns ++ rest ->
  Forall (fun l => Py.lower (Py.strip l) = "n") ns ->
  34 ≤ length ns ->
  (∀ d, ∃ joke, get_joke w "en" "neutral" d = Ok joke) ->
  main_invoke w = Raise GraphRecursionError.
Proof.
  intros Hin Hns Hlen Hsrc. unfold main_invoke, invoke.
  change (entry_point build_joke_graph) with (Some "show_menu").
  cbv beta iota.
  apply (run_out_of_steps ns Hns 100 JokeState.default w [] rest);
    [lia | done | discriminate | exact Hsrc].
Qed.

Lemma X9_witness :
  main_invoke (stub_world (replicate 34 "N " ++ ["q"]) fifty)
  = Raise GraphRecursionError.
Proof.
  apply (X9_step_limit_caps_the_session
           (stub_world (replicate 34 "N " ++ ["q"]) fifty)
           (replicate 34 "N ") ["q"]).
  - reflexivity.
  - by apply (bool_decide_unpack _).
  - vm_compute. lia.
  - intros d. exists fifty. reflexivity.
Defined.

(** ** The category update, read backwards *)

Lemma selection_error_Some (line : string) :
  is_Some (selection_error line) ↔
  ¬ ∃ i, Py.int (Py.strip line) = Some i ∧ (0 ≤ i ≤ 2)%Z.
Proof.
  rewrite <- selection_error_None.
  destruct (selection_error line); split; done.
Qed.

(** X10: when the category update returns, it has read the console input
    up to the first line that is an integer 0, 1 or 2 after stripping and
    not one line further; every line before that one was turned down with
    its error; the dict it returns holds the category of that number and
    no other key. *)
Theorem X10_update_category_takes_first_valid_line (s : JokeState.t)
    (w w' : World) (u : Update.t) :
  update_category s w = Ok (u, w') ->
  ∃ bad line k c,
    stdin w = bad ++ line :: stdin w'
    ∧ Forall (fun l => ¬ ∃ i, Py.int (Py.strip l) = Some i ∧ (0 ≤ i ≤ 2)%Z)
        bad
    ∧ Py.int (Py.strip line) = Some (Z.of_nat k)
    ∧ categories !! k = Some c
    ∧ u = Update.of_category c
    ∧ stdout w'
      = stdout w ++ retries bad ++ [category_prompt; category_message c].
Proof.
  intros H.
  apply update_category_full in H
    as (bad & line & k & c & Hin & Hbad & Hk & Hc & -> & Hw).
  exists bad, line, k, c. repeat split; try done.
  - eapply Forall_impl; [exact Hbad|]. intros l. apply selection_error_Some.
  - rewrite Hw. cbn. by rewrite <- !app_assoc.
Qed.

Lemma X10_witness :
  ∃ bad line k c,
    ["-1"; "2"; "0"] = bad ++ line :: ["0"]
    ∧ Py.int (Py.strip line) = Some (Z.of_nat k)
    ∧ categories !! k = Some c.
Proof.
  destruct (X10_update_category_takes_first_valid_line JokeState.default
              (stub_world ["-1"; "2"; "0"] fifty) _ _ eq_refl)
    as (bad & line & k & c & Hin & _ & Hk & Hc & _).
  by exists bad, line, k, c.
Defined.

(** X11: the category update fails exactly when the console input ends
    before a valid line: it raises [EOFError] if and only if every line
    that is left is turned down, and it raises nothing else. *)
Theorem X11_update_category_fails_at_end_of_input (s : JokeState.t)
    (w : World) :
  (update_category s w = Raise EOFError ↔
   Forall (fun l => ¬ ∃ i, Py.int (Py.strip l) = Some i ∧ (0 ≤ i ≤ 2)%Z)
     (stdin w))
  ∧ (∀ e, update_category s w = Raise e -> e = EOFError).
Proof.
  split; [split|].
  - intros H. apply update_category_Raise in H as [_ Hall].
    eapply Forall_impl; [exact Hall|]. intros l. apply selection_error_Some.
  - intros Hall. unfold update_category.
    destruct (update_category_loop_cases (stdin w) (stdout w))
      as [[_ Hr]|(bad & line & rest & i & Hin & _ & Hok & _)];
      [by rewrite Hr|].
    exfalso. rewrite Hin in Hall. apply Forall_app in Hall as [_ Hall].
    apply Forall_cons in Hall as [Hl _]. apply Hl.
    by apply selection_error_None.
  - intros e H. by apply update_category_Raise in H as [-> _].
Qed.

Lemma X11_witness :
  update_category JokeState.default (stub_world ["one"; "3"; ""] fifty)
  = Raise EOFError.
Proof.
  apply (proj1 (X11_update_category_fails_at_end_of_input JokeState.default
                  (stub_world ["one"; "3"; ""] fifty))).
  repeat constructor; intros (i & Hi & Hr); vm_compute in Hi;
    (discriminate Hi || (injection Hi as <-; lia)).
Defined.

(** ** The menu, blanks and capitals *)

Lemma list_ascii_of_string_app (a b : string) :
  list_ascii_of_string (a +:+ b)
  = list_ascii_of_string a ++ list_ascii_of_string b.
Proof.
  induction a as [|c a IH]; [done|].
  change (list_ascii_of_string (String c a +:+ b))
    with (c :: list_ascii_of_string (a +:+ b)).
  by rewrite IH.
Qed.

Lemma lstrip_blank (pre l : list ascii) :
  Forall (fun c => Py.isspace c = true) pre ->
  Py.lstrip (pre ++ l) = Py.lstrip l.
Proof. induction 1 as [|c pre Hc _ IH]; cbn; [done | by rewrite Hc]. Qed.

Lemma strip_padded (pre post : string) (c : ascii) :
  blank pre -> blank post -> Py.isspace c = false ->
  Py.strip (pre +:+ String c "" +:+ post) = String c "".
Proof.
  unfold blank, Py.strip. intros Hpre Hpost Hc.
  rewrite !list_ascii_of_string_app, lstrip_blank by done.
  cbn [list_ascii_of_string app Py.lstrip]. rewrite Hc.
  cbn [rev]. rewrite lstrip_blank by (by apply Forall_rev).
  cbn. by rewrite Hc.
Qed.

(** X12: the menu ignores blanks around the choice and its case: a line
    that is one of the letters n, c, q, small or capital, with any white
    space before and after it, sets [jokes_choice] to the small letter,
    and no warning is written. *)
Theorem X12_menu_ignores_blanks_and_case (s : JokeState.t) (w : World)
    (pre post : string) (c : ascii) (rest : list string) :
  blank pre -> blank post ->
  c ∈ ["n"; "c"; "q"; "N"; "C"; "Q"]%char ->
  stdin w = (pre +:+ String c "" +:+ post) :: rest ->
  show_menu s w
  = Ok (Update.of_jokes_choice (String (Py.lower_char c) ""),
        set_console w rest (stdout w ++ [menu_prompt]))
  ∧ String (Py.lower_char c) "" ∈ ["n"; "c"; "q"].
Proof.
  intros Hpre Hpost Hc Hin.
  assert (Hs : Py.isspace c = false
               ∧ String (Py.lower_char c) "" ∈ ["n"; "c"; "q"]).
  { rewrite !elem_of_cons, elem_of_nil in Hc.
    destruct Hc as [->|[->|[->|[->|[->|[->|[]]]]]]];
      (split; [reflexivity | by apply (bool_decide_unpack _)]). }
  destruct Hs as [Hsp Hlow]. split; [|done].
  pose proof (show_menu_valid s w _ rest Hin) as Hm.
  rewrite strip_padded in Hm by done. by apply Hm.
Qed.

Lemma X12_witness :
  show_menu JokeState.default (stub_world ["  Q "; "n"] fifty)
  = Ok (Update.of_jokes_choice "q",
        set_console (stub_world ["  Q "; "n"] fifty) ["n"] [menu_prompt]).
Proof.
  apply (proj1 (X12_menu_ignores_blanks_and_case JokeState.default
                  (stub_world ["  Q "; "n"] fifty) "  " " " "Q"%char ["n"]
                  ltac:(by apply (bool_decide_unpack _))
                  ltac:(by apply (bool_decide_unpack _))
                  ltac:(by apply (bool_decide_unpack _)) eq_refl)).
Defined.

(** ** Writer and critic together *)



(** X14: the critic keeps the last joke only and is idempotent.  On a
    history that ends with [j] the state after the critic holds [j] with
    its verdict and nothing else; and a second run of the critic right
    after the first returns and leaves the state as the first left it. *)
Theorem X14_critic_keeps_last_and_is_idempotent (s : JokeState.t)
    (w : World) :
  ∃ u w1 u2 w2,
    critic_node s w = Ok (u, w1)
    ∧ critic_node (apply_update s u) w1 = Ok (u2, w2)
    ∧ apply_update (apply_update s u) u2 = apply_update s u
    ∧ (∀ js j, JokeState.jokes s = js ++ [j] ->
         JokeState.jokes (apply_update s u)
         = [Joke.set_approved j (verdict (Joke.text j))]).
Proof.
  destruct (last (JokeState.jokes s)) as [j|] eqn:Hl.
  - eexists _, _, _, _. split; [by apply critic_node_last|].
    split; [by apply critic_node_last|]. split; [done|].
    intros js j' Hjs. rewrite Hjs, last_snoc in Hl. by injection Hl as ->.
  - apply last_None in Hl.
    exists Update.empty, w, Update.empty, w.
    assert (Hid : apply_update s Update.empty = s) by (by destruct s).
    rewrite !Hid. split; [by apply critic_node_empty|].
    split; [by apply critic_node_empty|]. split; [done|].
    intros js j Hjs. rewrite Hjs in Hl. by destruct js.
Qed.

Lemma X14_witness :
  ∃ u w1,
    critic_node
      {| JokeState.jokes := [Joke.new fifty "chuck"; Joke.new "short" "neutral"];
         JokeState.jokes_choice := "n"; JokeState.category := "neutral";
         JokeState.language := "en"; JokeState.quit := false |}
      (stub_world [] fifty) = Ok (u, w1)
    ∧ JokeState.jokes
        (apply_update
           {| JokeState.jokes :=
                [Joke.new fifty "chuck"; Joke.new "short" "neutral"];
              JokeState.jokes_choice := "n"; JokeState.category := "neutral";
              JokeState.language := "en"; JokeState.quit := false |} u)
      = [Joke.new "short" "neutral"].
Proof.
  destruct (X14_critic_keeps_last_and_is_idempotent
    {| JokeState.jokes := [Joke.new fifty "chuck"; Joke.new "short" "neutral"];
       JokeState.jokes_choice := "n"; JokeState.category := "neutral";
       JokeState.language := "en"; JokeState.quit := false |}
    (stub_world [] fifty)) as (u & w1 & _ & _ & Hc & _ & _ & Hlast).
  exists u, w1. split; [exact Hc|].
  exact (Hlast [Joke.new fifty "chuck"] (Joke.new "short" "neutral") eq_refl).
Defined.

(** ** What each step leaves alone *)

(** X15: every step of the graph leaves the language alone; only the menu
    changes [jokes_choice], only the category update changes [category],
    only the exit changes [quit], and only the writer and the critic
    change [jokes].  So the session category "all" stays "all" while the
    writer draws a concrete category for each joke. *)
Theorem X15_steps_frame (c c' : Config) :
  step build_joke_graph c = Ok c' ->
  JokeState.language (state c') = JokeState.language (state c)
  ∧ (node c ≠ "show_menu" ->
     JokeState.jokes_choice (state c') = JokeState.jokes_choice (state c))
  ∧ (node c ≠ "update_category" ->
     JokeState.category (state c') = JokeState.category (state c))
  ∧ (node c ≠ "exit_bot" ->
     JokeState.quit (state c') = JokeState.quit (state c))
  ∧ (node c ≠ "writer" -> node c ≠ "critic" ->
     JokeState.jokes (state c') = JokeState.jokes (state c)).
Proof.
  intros Hs. apply step_cases in Hs
    as (u & -> & [(Hn & Hf & _)|[(Hn & Hf & _)|[(Hn & Hf & _)
                 |[(Hn & Hf & _)|(Hn & Hf & _)]]]]).
  - by apply show_menu_inv in Hf as (x & -> & _).
  - by apply writer_node_inv in Hf as (t & x & -> & _).
  - by apply critic_node_inv in Hf as [(_ & -> & _)|(j & _ & ->)].
  - by apply update_category_inv in Hf as (x & -> & _).
  - by injection Hf as <- _.
Qed.

Lemma X15_witness :
  ∃ c',
    step build_joke_graph
      {| node := "writer";
         state :=
           {| JokeState.jokes := []; JokeState.jokes_choice := "n";
              JokeState.category := "all"; JokeState.language := "en";
              JokeState.quit := false |};
         world := stub_world ["q"] fifty |} = Ok c'
    ∧ JokeState.category (state c') = "all".
Proof.
  eexists. split; [apply step_writer; reflexivity|].
  refine (proj1 (proj2 (proj2 (X15_steps_frame
    {| node := "writer";
       state :=
         {| JokeState.jokes := []; JokeState.jokes_choice := "n";
            JokeState.category := "all"; JokeState.language := "en";
            JokeState.quit := false |};
       world := stub_world ["q"] fifty |} _ _))) _).
  - apply step_writer. reflexivity.
  - discriminate.
Defined.

(** ** Sessions that end *)

Lemma run_rounds (ns : list string) :
  Forall (fun l => Py.lower (Py.strip l) = "n") ns ->
  ∀ (limit : nat) (s : JokeState.t) (w : World) (t rest : list string),
    stdin w = ns ++ rest ->
    JokeState.category s ≠ "all" ->
    (∀ d, ∃ joke,
       get_joke w (JokeState.language s) (JokeState.category s) d = Ok joke) ->
    ∃ s' w' t',
      run build_joke_graph (3 * length ns + limit)
        {| node := "show_menu"; state := s; world := w |} t
      = run build_joke_graph limit
          {| node := "show_menu"; state := s'; world := w' |} t'
      ∧ stdin w' = rest
      ∧ length t' = length t + 3 * length ns
      ∧ JokeState.quit s' = JokeState.quit s
      ∧ length (JokeState.jokes s')
        = (if ns is [] then length (JokeState.jokes s) else 1).
Proof.
  induction 1 as [|line ns Hq _ IH]; intros limit s w t rest Hin Hc Hsrc.
  - exists s, w, t. cbn. repeat split; [done | lia].
  - destruct (Hsrc (random_draws w (random_pos w))) as [joke Hj].
    destruct (round_steps s w line joke (ns ++ rest) Hin Hq Hc Hj)
      as (c1 & c2 & w3 & Hs1 & Hn1 & Hs2 & Hn2 & Hs3 & Hin3 & Hg & _).
    destruct (IH limit (after_any_round s joke) w3
                (((t ++ ["show_menu"]) ++ ["writer"]) ++ ["critic"]) rest
                Hin3 Hc)
      as (s' & w' & t' & Hr & Hin' & Hlen & Hquit & Hjokes).
    { intros d. rewrite Hg. apply Hsrc. }
    exists s', w', t'. split; [|split; [done|split; [|split; [done|]]]].
    + replace (3 * length (line :: ns) + limit)
        with (S (S (S (3 * length ns + limit)))) by (cbn; lia).
      rewrite (run_step _ _ _ c1) by done.
      rewrite (run_step _ _ _ c2) by (done || by rewrite Hn1).
      erewrite run_step; [|by rewrite Hn2 | exact Hs3].
      cbn [node]. rewrite Hn1, Hn2. exact Hr.
    + rewrite Hlen, !length_app. cbn. lia.
    + rewrite Hjokes. by destruct ns.
Qed.


